(** * Spinoff grid: feature scoring and confidence-weighted composition

    A shallow embedding of [src/main.py]: the pydantic data contracts, the
    three deterministic scoring rules, the composer and the [asyncio]
    orchestration, followed by the properties established about them.

    Python [float] is IEEE-754 binary64, modelled by Rocq's primitive
    [float] (the same format, round-to-nearest-even); Python [int] is [Z];
    [dict] is stdpp's [gmap]; a raised exception is the [Raise] case of
    [result].

    The builtins the scorers call are embedded in [Module Py] after
    CPython 3.11: [float(x)] and [int(x)] on the four kinds of feature
    values (text is parsed with the full decimal grammar and rounded
    correctly), fixed-point formatting as in [f"{x:.1f}"], truth and
    division of floats, [dict.get]. Text is ASCII text: digits and spaces
    outside ASCII, which CPython also accepts, are not modelled. A pydantic
    model keeps the feature values it is given; [CriterionScore] turns an
    [int] score into a [float].

    [asyncio.gather] is embedded in [Module Asyncio] with the order in
    which the children complete as a parameter. *)

From Stdlib Require Import ZArith NArith String Ascii List Lia.
From Stdlib Require Import Floats.
From Stdlib Require Import Permutation.
From stdpp Require Import gmap strings list pretty.

Set Warnings "-inexact-float".

Local Open Scope string_scope.
Local Open Scope Z_scope.

(** ** Exceptions and fallible results *)

Inductive exn : Type :=
  | ValueError
  | OverflowError
  | ZeroDivisionError
  | TimeoutError
  | RuntimeError (msg : string).

Inductive result (A : Type) : Type :=
  | Ok (a : A)
  | Raise (e : exn).

Arguments Ok {A} a.
Arguments Raise {A} e.

(** [x ← r; k] runs [k] on the value of [r] and propagates an exception. *)
#[global] Instance result_ret : MRet result := fun A a => Ok a.
#[global] Instance result_bind : MBind result := fun A B k r =>
  match r with
  | Ok a => k a
  | Raise e => Raise e
  end.

Definition succeeds {A : Type} (r : result A) : Prop := exists a, r = Ok a.

(** ** Python values stored in a FeatureSet: [float | int | bool | str] *)

Inductive value : Type :=
  | VFloat (f : float)
  | VInt (z : Z)
  | VBool (b : bool)
  | VStr (s : string).

Module Py.

(** *** Characters *)

Definition is_digit (c : ascii) : bool :=
  let n := N_of_ascii c in ((48 <=? n) && (n <=? 57))%N.

Definition digit_val (c : ascii) : Z := Z.of_N (N_of_ascii c) - 48.

(** The white space that [float] and [int] strip from ASCII text: the
    space and the control characters from tab to carriage return. *)
Definition is_space (c : ascii) : bool :=
  let n := N_of_ascii c in
  (((9 <=? n) && (n <=? 13)) || (n =? 32))%N.

Definition lower (c : ascii) : ascii :=
  let n := N_of_ascii c in
  if ((65 <=? n) && (n <=? 90))%N then ascii_of_N (n + 32) else c.

Fixpoint lstrip (l : list ascii) : list ascii :=
  match l with
  | c :: r => if is_space c then lstrip r else l
  | [] => []
  end.

Definition strip (l : list ascii) : list ascii :=
  rev (lstrip (rev (lstrip l))).

(** *** Digit groups with underscores

    [1_000] is accepted, [_1], [1_] and [1__0] are not: an underscore
    must sit between two digits. *)

Definition is_underscore (c : ascii) : bool := (N_of_ascii c =? 95)%N.

(** Checks the placement of underscores the way CPython's
    [_Py_string_to_number_with_underscores] does, and drops them. *)
Fixpoint drop_underscores (prev : option ascii) (l : list ascii)
  : option (list ascii) :=
  match l with
  | [] =>
      match prev with
      | Some p => if is_underscore p then None else Some []
      | None => Some []
      end
  | c :: r =>
      if is_underscore c then
        match prev with
        | Some p => if is_digit p then drop_underscores (Some c) r else None
        | None => None
        end
      else
        let after_underscore :=
          match prev with Some p => is_underscore p | None => false end in
        if after_underscore && negb (is_digit c) then None
        else option_map (cons c) (drop_underscores (Some c) r)
  end.

(** Longest prefix of digits, as the number it denotes and its length. *)
Fixpoint take_digits (acc : Z) (n : nat) (l : list ascii)
  : Z * nat * list ascii :=
  match l with
  | c :: r =>
      if is_digit c then take_digits (10 * acc + digit_val c) (S n) r
      else (acc, n, l)
  | [] => (acc, n, [])
  end.

Definition take_sign (l : list ascii) : bool * list ascii :=
  match l with
  | "-"%char :: r => (true, r)
  | "+"%char :: r => (false, r)
  | _ => (false, l)
  end.

(** *** [float(x)] *)

(** The binary64 nearest to [(-1)^neg * num / den], ties to even. *)
Definition round_ratio (neg : bool) (num den : Z) : float :=
  match num with
  | Z0 => SF2Prim (S754_zero neg)
  | _ =>
      let '(q, e, l) := SFdiv_core_binary prec emax num 0 den 0 in
      SF2Prim (binary_round_aux prec emax neg q e l)
  end.

(** The binary64 nearest to an integer. *)
Definition of_int (z : Z) : float := round_ratio (z <? 0) (Z.abs z) 1.

(** [float(int)]: correctly rounded, [OverflowError] beyond the largest
    finite double. *)
Definition float_of_Z (z : Z) : result float :=
  let f := of_int z in
  if is_infinity f then Raise OverflowError else Ok f.

Definition matches_ci (word : string) (l : list ascii) : bool :=
  bool_decide (map lower l = list_ascii_of_string word).

Definition parse_exponent (l : list ascii) : option Z :=
  match l with
  | [] => Some 0
  | c :: r =>
      if matches_ci "e" [c] then
        let '(neg, r1) := take_sign r in
        match take_digits 0 0 r1 with
        | (_, O, _) => None
        | (x, _, []) => Some (if neg then - x else x)
        | _ => None
        end
      else None
  end.

(** Decimal numeral [digits [. digits] [e [sign] digits]] with at least
    one digit in the mantissa. *)
Definition parse_decimal (neg : bool) (l : list ascii) : option float :=
  let '(ip, ni, r1) := take_digits 0 0 l in
  let '(m, nf, r2) :=
    match r1 with
    | "."%char :: r => let '(m, nf, r') := take_digits ip 0 r in (m, nf, r')
    | _ => (ip, O, r1)
    end in
  match (ni + nf)%nat with
  | O => None
  | _ =>
      match parse_exponent r2 with
      | Some x =>
          let e := x - Z.of_nat nf in
          Some (if 0 <=? e then round_ratio neg (m * 10 ^ e) 1
                else round_ratio neg m (10 ^ (- e)))
      | None => None
      end
  end.

Definition float_of_string (s : string) : result float :=
  let body := strip (list_ascii_of_string s) in
  let '(neg, r) := take_sign body in
  if matches_ci "inf" r || matches_ci "infinity" r then
    Ok (if neg then neg_infinity else infinity)
  else if matches_ci "nan" r then Ok nan
  else
    match drop_underscores None body with
    | Some clean =>
        let '(neg, r) := take_sign clean in
        match parse_decimal neg r with
        | Some f => Ok f
        | None => Raise ValueError
        end
    | None => Raise ValueError
    end.

Definition float_of_bool (b : bool) : float := if b then 1%float else 0%float.

(** *** [int(x)] *)

(** Truncation toward zero; NaN and the infinities have no integer. *)
Definition int_of_float (f : float) : result Z :=
  match Prim2SF f with
  | S754_nan => Raise ValueError
  | S754_infinity _ => Raise OverflowError
  | S754_zero _ => Ok 0
  | S754_finite s m e =>
      let mag := if 0 <=? e then Z.shiftl (Zpos m) e
                 else Z.shiftr (Zpos m) (- e) in
      Ok (if s then - mag else mag)
  end.

(** [sys.get_int_max_str_digits()], at its default. *)
Definition int_max_str_digits : nat := 4300.

(** Digits separated by single underscores; the value and the number of
    digits read. [None] when an underscore is doubled or trails. *)
Fixpoint take_int_digits (acc : Z) (n : nat) (l : list ascii)
  : option (Z * nat * list ascii) :=
  match l with
  | c :: r =>
      if is_digit c then
        let acc' := 10 * acc + digit_val c in
        match r with
        | u :: (d :: _) as r' =>
            if is_underscore u then
              if is_digit d then take_int_digits acc' (S n) r' else None
            else take_int_digits acc' (S n) r
        | [u] => if is_underscore u then None
                 else take_int_digits acc' (S n) r
        | [] => Some (acc', S n, [])
        end
      else Some (acc, n, l)
  | [] => Some (acc, n, [])
  end.

(** [int(str)] in base 10. *)
Definition int_of_string (s : string) : result Z :=
  let '(neg, r) := take_sign (lstrip (list_ascii_of_string s)) in
  match take_int_digits 0 0 r with
  | Some (x, n, rest) =>
      match n, lstrip rest with
      | S _, [] =>
          if (int_max_str_digits <? n)%nat then Raise ValueError
          else Ok (if neg then - x else x)
      | _, _ => Raise ValueError
      end
  | None => Raise ValueError
  end.

(** *** Fixed-point formatting, [format(x, ".<p>f")] *)

(** Nearest integer to [num / den], ties to even ([0 < den]). *)
Definition round_half_even (num den : Z) : Z :=
  let q := num / den in
  match (2 * (num mod den)) ?= den with
  | Lt => q
  | Eq => if Z.even q then q else q + 1
  | Gt => q + 1
  end.

Fixpoint zeros (n : nat) : string :=
  match n with
  | O => EmptyString
  | S k => String "0" (zeros k)
  end.

(** The digits of [n / 10^p] with exactly [p] decimals. *)
Definition fixed (n : Z) (p : nat) : string :=
  let ds := pretty (Z.to_N n) in
  let ds := (zeros (S p - String.length ds) ++ ds)%string in
  let k := (String.length ds - p)%nat in
  match p with
  | O => ds
  | _ => (substring 0 k ds ++ "." ++ substring k p ds)%string
  end.

Definition sign_str (neg : bool) : string := if neg then "-" else "".

Definition format_f (p : nat) (f : float) : string :=
  match Prim2SF f with
  | S754_nan => "nan"
  | S754_infinity s => (sign_str s ++ "inf")%string
  | S754_zero s => (sign_str s ++ fixed 0 p)%string
  | S754_finite s m e =>
      let scaled := Zpos m * 10 ^ Z.of_nat p in
      let n := if 0 <=? e then scaled * 2 ^ e
               else round_half_even scaled (2 ^ (- e)) in
      (sign_str s ++ fixed n p)%string
  end.

(** *** Arithmetic and truth of floats *)

(** [bool(x)]: every float but the two zeros is true, NaN included. *)
Definition truthy (x : float) : bool := negb (x =? 0)%float.

(** [x / y] *)
Definition div (x y : float) : result float :=
  if (y =? 0)%float then Raise ZeroDivisionError else Ok (x / y)%float.

(** [d.get(key, dflt)] *)
Definition get {V : Type} (d : gmap string V) (key : string) (dflt : V) : V :=
  default dflt (d !! key).

(** *** The constructors [int(x)] and [float(x)] on feature values *)

Definition int (v : value) : result Z :=
  match v with
  | VFloat f => int_of_float f
  | VInt z => Ok z
  | VBool b => Ok (if b then 1 else 0)
  | VStr s => int_of_string s
  end.

Definition float (v : value) : result PrimFloat.float :=
  match v with
  | VFloat f => Ok f
  | VInt z => float_of_Z z
  | VBool b => Ok (float_of_bool b)
  | VStr s => float_of_string s
  end.

End Py.

(** ** Data contracts *)

Record CaseFile : Type := {
  company : string;
  ticker : string;
  announcement_date : option string
}.

Record FeatureSet : Type := {
  domain : string;
  features : gmap string value;
  provenance : list (gmap string string)
}.

Record CriterionScore : Type := {
  criterion : string;
  score : float;
  confidence : float;
  rationale : string;
  evidence_ids : list string
}.

(** ** Deterministic scoring rules *)

(** The band table of [score_debt_loading], on the converted inputs. *)
Definition debt_loading_base (nl fcf_nd : float) : Z :=
  if (nl <=? 1.5)%float then 1
  else if (nl <=? 3.0)%float then 3
  else
    let base := if (20 <=? fcf_nd)%float then 4 else 3 in
    if (30 <=? fcf_nd)%float then 5 else base.

Definition score_debt_loading (cap : FeatureSet) : result CriterionScore :=
  nl ← Py.float (Py.get (features cap) "net_leverage_turns" (VInt 0));
  fcf_nd ← Py.float (Py.get (features cap) "fcf_to_net_debt_pct" (VInt 0));
  let base := debt_loading_base nl fcf_nd in
  let rationale :=
    ("Net leverage " ++ Py.format_f 1 nl ++ "x; FCF/NetDebt approx "
       ++ Py.format_f 0 fcf_nd ++ "% -> deleveraging plausible.")%string in
  Ok {| criterion := "Debt Loading"; score := Py.of_int base;
        confidence := 0.75; rationale := rationale; evidence_ids := [] |}.

Definition index_exclusion_table (russ : Z) (adv : float) : Z * string :=
  if (russ =? 0) && (adv <? 15000000)%float then
    (5, "Likely excluded from major indices at spin; thin ADV increases forced selling risk.")
  else if russ =? 0 then
    (4, "Likely excluded; liquidity somewhat offsets.")
  else
    (2, "Index eligible; less forced selling.").

Definition score_index_exclusion (micro : FeatureSet) : result CriterionScore :=
  russ ← Py.int (Py.get (features micro) "russell_eligible" (VInt 1));
  adv ← Py.float (Py.get (features micro) "avg_daily_dollar_volume" (VInt 0));
  let '(s, r) := index_exclusion_table russ adv in
  Ok {| criterion := "Index Exclusion"; score := Py.of_int s;
        confidence := 0.70; rationale := r; evidence_ids := [] |}.

Definition equity_incentives_table (pct : float) (perf : Z) : Z :=
  let perf := negb (perf =? 0) in
  if (3 <=? pct)%float && perf then 5
  else if (1 <=? pct)%float && perf then 4
  else if (1 <=? pct)%float then 3
  else 2.

Definition score_equity_incentives (own : FeatureSet) : result CriterionScore :=
  pct ← Py.float (Py.get (features own) "mgmt_ownership_pct" (VInt 0));
  perf ← Py.int (Py.get (features own) "perf_equity_present" (VInt 0));
  let s := equity_incentives_table pct perf in
  let how := if negb (perf =? 0) then "with" else "without" in
  let r :=
    ("Mgmt owns approx " ++ Py.format_f 1 pct ++ "% " ++ how
       ++ " performance equity.")%string in
  Ok {| criterion := "Equity Incentives"; score := Py.of_int s;
        confidence := 0.80; rationale := r; evidence_ids := [] |}.

(** ** Composer *)

Definition WEIGHTS : gmap string float :=
  {[ "Debt Loading" := 1.3%float;
     "Index Exclusion" := 1.2%float;
     "Equity Incentives" := 1.5%float ]}.

(** One turn of the loop of [compose], on the pair [(num, den)]. *)
Definition compose_step (acc : float * float) (sc : CriterionScore)
  : float * float :=
  let w := (Py.get WEIGHTS (criterion sc) 1.0 * (0.5 + 0.5 * confidence sc))%float in
  ((fst acc + w * score sc)%float, (snd acc + w)%float).

Definition compose (scores : list CriterionScore)
  : result (float * list CriterionScore) :=
  let '(num, den) := fold_left compose_step scores (0.0%float, 0.0%float) in
  c ← (if Py.truthy den then Py.div num den else Ok 0.0%float);
  Ok (c, scores).

(** ** The event loop: [asyncio.gather]

    A child awaitable is given by the outcome it has when it completes.
    The order in which the children complete is not fixed by the program:
    it is a parameter, the list of child positions in completion order.
    [gather] follows CPython's implementation: every completion runs
    [done_callback], the first exception completes the outer future and
    the results are collected from the children, in argument order, when
    the last one finishes. [None] stands for an await that never resumes. *)

Module Asyncio.
Section Gather.
Context {A : Type}.

Record gather_state : Type := {
  nfinished : nat;
  futs : list (option (result A));
  outer : option (result (list A))
}.

Definition fut_result (f : option (result A)) : option A :=
  match f with
  | Some (Ok a) => Some a
  | _ => None
  end.

(** [[fut.result() for fut in children]] *)
Definition results_of (fs : list (option (result A))) : option (list A) :=
  mapM fut_result fs.

Definition done_callback (nfuts i : nat) (r : result A) (st : gather_state)
  : gather_state :=
  let n := S (nfinished st) in
  let fs := <[i := Some r]> (futs st) in
  match outer st with
  | Some o => {| nfinished := n; futs := fs; outer := Some o |}
  | None =>
      match r with
      | Raise e => {| nfinished := n; futs := fs; outer := Some (Raise e) |}
      | Ok _ =>
          if (n =? nfuts)%nat
          then {| nfinished := n; futs := fs; outer := Ok <$> results_of fs |}
          else {| nfinished := n; futs := fs; outer := None |}
      end
  end.

Definition complete (children : list (result A)) (st : gather_state) (i : nat)
  : gather_state :=
  match children !! i with
  | Some r => done_callback (length children) i r st
  | None => st
  end.

Definition start (children : list (result A)) : gather_state :=
  {| nfinished := 0; futs := replicate (length children) None; outer := None |}.

Definition gather (children : list (result A)) (order : list nat)
  : option (result (list A)) :=
  match children with
  | [] => Some (Ok [])
  | _ => outer (fold_left (complete children) order (start children))
  end.
End Gather.

(** [x = await aw; k x] *)
Definition await {A B : Type} (aw : option (result A))
    (k : A -> option (result B)) : option (result B) :=
  match aw with
  | Some (Ok a) => k a
  | Some (Raise e) => Some (Raise e)
  | None => None
  end.

(** An awaitable that completes with the outcome [r]. *)
Definition now {A : Type} (r : result A) : option (result A) := Some r.
End Asyncio.

(** ** Acquisition and the four domain hubs (demo placeholders) *)

Definition fetch_and_normalize (subject : string) : result CaseFile :=
  Ok {| company := subject; ticker := "TBD";
        announcement_date := Some "2025-07-15" |}.

Definition capital_structure_hub (cf : CaseFile) : result FeatureSet :=
  Ok {| domain := "capital_structure";
        features := {[ "net_leverage_turns" := VFloat 3.2;
                       "fcf_to_net_debt_pct" := VInt 22;
                       "special_dividend_flag" := VBool true ]};
        provenance := [ {[ "feature" := "net_leverage_turns";
                           "url" := "https://example.com/press" ]} ] |}.

Definition ownership_hub (cf : CaseFile) : result FeatureSet :=
  Ok {| domain := "ownership";
        features := {[ "mgmt_ownership_pct" := VFloat 2.1;
                       "perf_equity_present" := VInt 1 ]};
        provenance := [] |}.

Definition microstructure_hub (cf : CaseFile) : result FeatureSet :=
  Ok {| domain := "microstructure";
        features := {[ "free_float_pct" := VInt 65;
                       "russell_eligible" := VInt 0;
                       "avg_daily_dollar_volume" := VInt 12000000 ]};
        provenance := [] |}.

Definition ops_hub (cf : CaseFile) : result FeatureSet :=
  Ok {| domain := "ops";
        features := {[ "ebitda_margin_pct" := VInt 14;
                       "customer_conc_top5_pct" := VInt 38 ]};
        provenance := [] |}.

(** ** Orchestration *)

(** The four providers [run] fans out to, in the order of the call. *)
Record Hubs : Type := {
  hub_capital_structure : CaseFile -> result FeatureSet;
  hub_ownership : CaseFile -> result FeatureSet;
  hub_microstructure : CaseFile -> result FeatureSet;
  hub_ops : CaseFile -> result FeatureSet
}.

Definition demo_hubs : Hubs :=
  {| hub_capital_structure := capital_structure_hub;
     hub_ownership := ownership_hub;
     hub_microstructure := microstructure_hub;
     hub_ops := ops_hub |}.

(** Completion orders of the two fan-outs of one run. *)
Record Schedule : Type := {
  hubs_order : list nat;
  scorers_order : list nat
}.

Inductive cell : Type :=
  | CStr (s : string)
  | CNum (x : float).

(** What [run] computes and hands to [print] and to [csv.writer]; the
    console and the file system themselves are outside the model. *)
Record Report : Type := {
  composite : float;
  scores : list CriterionScore;
  grid : list (list cell)
}.

Definition grid_rows (cf : CaseFile) (scs : list CriterionScore)
  : list (list cell) :=
  [CStr "Company"; CStr "Criterion"; CStr "Score"; CStr "Confidence";
   CStr "Rationale"]
  :: map (fun sc => [CStr (company cf); CStr (criterion sc); CNum (score sc);
                     CNum (confidence sc); CStr (rationale sc)]) scs.

(** The awaitables of the first fan-out, in the order of the call. *)
Definition providers (hubs : Hubs) (casefile : CaseFile)
  : list (result FeatureSet) :=
  [hub_capital_structure hubs casefile; hub_ownership hubs casefile;
   hub_microstructure hubs casefile; hub_ops hubs casefile].

(** [run], over the providers it calls. *)
Definition run_with (hubs : Hubs) (sched : Schedule) (subject : string)
  : option (result Report) :=
  Asyncio.await (Asyncio.now (fetch_and_normalize subject)) (fun casefile =>
  Asyncio.await
    (Asyncio.gather (providers hubs casefile) (hubs_order sched)) (fun fs =>
  match fs with
  | [cap; own; micro; ops] =>
      Asyncio.await
        (Asyncio.gather
           [score_debt_loading cap; score_index_exclusion micro;
            score_equity_incentives own]
           (scorers_order sched)) (fun scs =>
      Asyncio.now (
        '(c, _) ← compose scs;
        Ok {| composite := c; scores := scs; grid := grid_rows casefile scs |}))
  | _ => Asyncio.now (Raise ValueError)
  end)).

Definition run (sched : Schedule) (subject : string) : option (result Report) :=
  run_with demo_hubs sched subject.

(** The scores that reach the caller of a run. *)
Definition reported_scores (out : option (result Report)) : list CriterionScore :=
  match out with
  | Some (Ok rep) => scores rep
  | _ => []
  end.

(** ** Vocabulary of the properties *)

(** A FeatureSet with one more feature. *)
Definition with_feature (k : string) (v : value) (fs : FeatureSet) : FeatureSet :=
  {| domain := domain fs; features := <[k := v]> (features fs);
     provenance := provenance fs |}.

(** A scorer treats an absent feature [k] exactly as the value [d]. *)
Definition defaults_to (scorer : FeatureSet -> result CriterionScore)
    (k : string) (d : value) : Prop :=
  forall fs, features fs !! k = None -> scorer fs = scorer (with_feature k d fs).

(** A feature is readable by a conversion when it is absent or converts. *)
Definition readable {A : Type} (conv : value -> result A) (fs : FeatureSet)
    (k : string) : Prop :=
  forall v, features fs !! k = Some v -> succeeds (conv v).

(** The leverage bands: at most 1.5 turns, at most 3.0 turns, above. *)
Definition leverage_band (nl : float) : nat :=
  if (nl <=? 1.5)%float then 0%nat
  else if (nl <=? 3.0)%float then 1%nat
  else 2%nat.

(** Magnitudes of binary64 numbers. [mag_ge k x]: [x] is positive and at
    least [2^(k-1)], by the number of digits of its mantissa and its
    exponent; [mag_ge 0] is "at least a half". *)
Definition mag_ge (k : Z) (x : spec_float) : Prop :=
  match x with
  | S754_infinity false => True
  | S754_finite false m e => k <= Zdigits2 (Zpos m) + e
  | _ => False
  end.

(** Zero (of either sign), a positive number or plus infinity. *)
Definition nonneg (x : spec_float) : Prop :=
  match x with
  | S754_zero _ => True
  | S754_infinity false => True
  | S754_finite false _ _ => True
  | _ => False
  end.

(** The weighted mean, term by term as the composer's contract words it. *)
Definition base_weight (name : string) : float :=
  match WEIGHTS !! name with
  | Some w => w
  | None => 1.0%float
  end.

Definition effective_weight (sc : CriterionScore) : float :=
  (base_weight (criterion sc) * (0.5 + 0.5 * confidence sc))%float.

(** Sums run left to right from [0.0], the order of the loop. *)
Definition weighted_total (scs : list CriterionScore) : float :=
  fold_left (fun acc sc => (acc + effective_weight sc * score sc)%float) scs 0%float.

Definition weight_total (scs : list CriterionScore) : float :=
  fold_left (fun acc sc => (acc + effective_weight sc)%float) scs 0%float.

Definition criteria : list string :=
  ["Debt Loading"; "Index Exclusion"; "Equity Incentives"].

(** The demo inputs of the end-to-end scenarios. *)
Definition demo_capital_structure : FeatureSet :=
  {| domain := "capital_structure";
     features := {[ "net_leverage_turns" := VFloat 3.2;
                    "fcf_to_net_debt_pct" := VInt 22 ]};
     provenance := [] |}.

Definition demo_microstructure : FeatureSet :=
  {| domain := "microstructure";
     features := {[ "russell_eligible" := VInt 0;
                    "avg_daily_dollar_volume" := VInt 12000000 ]};
     provenance := [] |}.

(** A syntactically valid FeatureSet whose leverage feature is text. *)
Definition text_capital_structure : FeatureSet :=
  {| domain := "capital_structure";
     features := {[ "net_leverage_turns" := VStr "high" ]};
     provenance := [] |}.

(** The demo leverage raised within the top band. *)
Definition levered_capital_structure : FeatureSet :=
  with_feature "net_leverage_turns" (VFloat 3.6) demo_capital_structure.

(** A microstructure FeatureSet that says nothing about index eligibility. *)
Definition unlisted_microstructure : FeatureSet :=
  {| domain := "microstructure";
     features := {[ "avg_daily_dollar_volume" := VInt 12000000 ]};
     provenance := [] |}.

(** The three scores of the demo run. *)
Definition demo_scores : list CriterionScore :=
  [ {| criterion := "Debt Loading"; score := 4; confidence := 0.75;
       rationale := "Net leverage 3.2x; FCF/NetDebt approx 22% -> deleveraging plausible.";
       evidence_ids := [] |};
    {| criterion := "Index Exclusion"; score := 5; confidence := 0.70;
       rationale := "Likely excluded from major indices at spin; thin ADV increases forced selling risk.";
       evidence_ids := [] |};
    {| criterion := "Equity Incentives"; score := 4; confidence := 0.80;
       rationale := "Mgmt owns approx 2.1% with performance equity.";
       evidence_ids := [] |} ].

(** The demo providers with the operations provider timing out. *)
Definition ops_down : Hubs :=
  {| hub_capital_structure := capital_structure_hub;
     hub_ownership := ownership_hub;
     hub_microstructure := microstructure_hub;
     hub_ops := fun _ => Raise TimeoutError |}.

(** Providers of which two fail: the capital structure with a
    [ValueError], the operations with a [TimeoutError]. *)
Definition two_down : Hubs :=
  {| hub_capital_structure := fun _ => Raise ValueError;
     hub_ownership := ownership_hub;
     hub_microstructure := microstructure_hub;
     hub_ops := fun _ => Raise TimeoutError |}.

(** The futures of the four providers once the fan-out has handled every
    completion of the schedule: [None] while pending, the provider's
    outcome once it has completed. *)
Definition provider_futures (hubs : Hubs) (sched : Schedule) (cf : CaseFile)
  : list (option (result FeatureSet)) :=
  Asyncio.futs
    (fold_left (Asyncio.complete (providers hubs cf)) (hubs_order sched)
       (Asyncio.start (providers hubs cf))).

(** A run in which the last provider and the last scorer finish first. *)
Definition demo_schedule : Schedule :=
  {| hubs_order := [3; 1; 0; 2]%nat; scorers_order := [2; 0; 1]%nat |}.

(** ** Vocabulary of the further properties *)

(** The converted inputs of the three scorers, as the scorers read them. *)
Definition net_leverage_turns (fs : FeatureSet) : result float :=
  Py.float (Py.get (features fs) "net_leverage_turns" (VInt 0)).

Definition fcf_to_net_debt_pct (fs : FeatureSet) : result float :=
  Py.float (Py.get (features fs) "fcf_to_net_debt_pct" (VInt 0)).

Definition russell_eligible (fs : FeatureSet) : result Z :=
  Py.int (Py.get (features fs) "russell_eligible" (VInt 1)).

Definition avg_daily_dollar_volume (fs : FeatureSet) : result float :=
  Py.float (Py.get (features fs) "avg_daily_dollar_volume" (VInt 0)).

Definition mgmt_ownership_pct (fs : FeatureSet) : result float :=
  Py.float (Py.get (features fs) "mgmt_ownership_pct" (VInt 0)).

Definition perf_equity_present (fs : FeatureSet) : result Z :=
  Py.int (Py.get (features fs) "perf_equity_present" (VInt 0)).

(** The demo ownership features. *)
Definition demo_ownership : FeatureSet :=
  {| domain := "ownership";
     features := {[ "mgmt_ownership_pct" := VFloat 2.1;
                    "perf_equity_present" := VInt 1 ]};
     provenance := [] |}.

(** The three scoring tasks of the second fan-out, in the order of the
    call. *)
Definition scorer_tasks (cap own micro : FeatureSet)
  : list (result CriterionScore) :=
  [score_debt_loading cap; score_index_exclusion micro;
   score_equity_incentives own].

(** The demo operations features. *)
Definition demo_ops : FeatureSet :=
  {| domain := "ops";
     features := {[ "ebitda_margin_pct" := VInt 14;
                    "customer_conc_top5_pct" := VInt 38 ]};
     provenance := [] |}.

(** The report of the demo run. *)
Definition demo_report : Report :=
  {| composite := 0x1.129c8e52d6f1fp+2;
     scores := demo_scores;
     grid := grid_rows {| company := "Example SpinCo"; ticker := "TBD";
                          announcement_date := Some "2025-07-15" |}
               demo_scores |}.

(** Providers whose features put every criterion at its top score. *)
Definition top_hubs : Hubs :=
  {| hub_capital_structure := fun _ =>
       Ok (with_feature "fcf_to_net_debt_pct" (VInt 35) demo_capital_structure);
     hub_ownership := fun _ =>
       Ok (with_feature "mgmt_ownership_pct" (VFloat 3.5) demo_ownership);
     hub_microstructure := microstructure_hub;
     hub_ops := ops_hub |}.

Definition top_scores : list CriterionScore :=
  [ {| criterion := "Debt Loading"; score := 5; confidence := 0.75;
       rationale := "Net leverage 3.2x; FCF/NetDebt approx 35% -> deleveraging plausible.";
       evidence_ids := [] |};
    {| criterion := "Index Exclusion"; score := 5; confidence := 0.70;
       rationale := "Likely excluded from major indices at spin; thin ADV increases forced selling risk.";
       evidence_ids := [] |};
    {| criterion := "Equity Incentives"; score := 5; confidence := 0.80;
       rationale := "Mgmt owns approx 3.5% with performance equity.";
       evidence_ids := [] |} ].

Definition top_report : Report :=
  {| composite := 0x1.4000000000001p+2;
     scores := top_scores;
     grid := grid_rows {| company := "Example SpinCo"; ticker := "TBD";
                          announcement_date := Some "2025-07-15" |}
               top_scores |}.

(** Providers with an operations domain that reports no feature. *)
Definition quiet_ops : Hubs :=
  {| hub_capital_structure := capital_structure_hub;
     hub_ownership := ownership_hub;
     hub_microstructure := microstructure_hub;
     hub_ops := fun _ =>
       Ok {| domain := "ops"; features := ∅; provenance := [] |} |}.

(** Providers whose capital structure carries a leverage that is text. *)
Definition text_hubs : Hubs :=
  {| hub_capital_structure := fun _ => Ok text_capital_structure;
     hub_ownership := fun _ => Ok demo_ownership;
     hub_microstructure := fun _ => Ok demo_microstructure;
     hub_ops := fun _ => Ok demo_ops |}.

(** The binary64 numbers -1, 1 and 0.5 as mantissa and exponent. *)
Definition SF_minus_one : spec_float := S754_finite true 4503599627370496 (-52).
Definition SF_one : spec_float := S754_finite false 4503599627370496 (-52).
Definition SF_half : spec_float := S754_finite false 4503599627370496 (-53).

(** What a fan-out keeps true while its children complete: the futures
    hold the outcomes of the children, and a list of results is handed
    over only when it is the list of all the children's values. *)
Definition gather_inv {A : Type} (children : list (result A))
    (st : Asyncio.gather_state) : Prop :=
  length (Asyncio.futs st) = length children
  /\ (forall j r, Asyncio.futs st !! j = Some (Some r) -> children !! j = Some r)
  /\ (forall vals, Asyncio.outer st = Some (Ok vals) -> children = Ok <$> vals).

(** ** The conversions and the formatting on sample inputs *)

Example float_of_decimal_text :
  Py.float_of_string "3.2" = Ok 3.2%float
  /\ Py.float_of_string " 1_000.5e-3 " = Ok 1.0005%float
  /\ Py.float_of_string "1e23" = Ok 1e23%float
  /\ Py.float_of_string "-Infinity" = Ok neg_infinity
  /\ Py.float_of_string "1e400" = Ok infinity.
Proof. repeat split; vm_compute; reflexivity. Qed.

Example float_of_text_rejects :
  Py.float_of_string "" = Raise ValueError
  /\ Py.float_of_string "high" = Raise ValueError
  /\ Py.float_of_string "1__0" = Raise ValueError
  /\ Py.float_of_string "1e" = Raise ValueError
  /\ Py.float_of_string "0x10" = Raise ValueError.
Proof. repeat split; vm_compute; reflexivity. Qed.

Example float_of_int_rounds_or_overflows :
  Py.float (VInt 22) = Ok 22%float
  /\ Py.float (VInt (2 ^ 53 + 1)) = Ok 9007199254740992%float
  /\ Py.float (VInt (2 ^ 1024)) = Raise OverflowError.
Proof. repeat split; vm_compute; reflexivity. Qed.

Example int_of_values :
  Py.int (VFloat 3.99) = Ok 3
  /\ Py.int (VFloat (-3.99)) = Ok (-3)
  /\ Py.int (VFloat nan) = Raise ValueError
  /\ Py.int (VFloat infinity) = Raise OverflowError
  /\ Py.int (VStr " +1_000 ") = Ok 1000
  /\ Py.int (VStr "1.0") = Raise ValueError
  /\ Py.int (VBool true) = Ok 1.
Proof. repeat split; vm_compute; reflexivity. Qed.

Example format_fixed_point :
  Py.format_f 1 3.2 = "3.2"
  /\ Py.format_f 1 0.25 = "0.2"
  /\ Py.format_f 1 0.35 = "0.3"
  /\ Py.format_f 1 99.95 = "100.0"
  /\ Py.format_f 1 (-0.04) = "-0.0"
  /\ Py.format_f 0 22 = "22"
  /\ Py.format_f 0 0.5 = "0"
  /\ Py.format_f 0 1.5 = "2"
  /\ Py.format_f 1 nan = "nan"
  /\ Py.format_f 0 neg_infinity = "-inf".
Proof. repeat split; vm_compute; reflexivity. Qed.

(** The boundaries of the Debt Loading table. *)
Example debt_loading_table_boundaries :
  debt_loading_base 1.5 0 = 1
  /\ debt_loading_base 3.0 50 = 3
  /\ debt_loading_base 3.2 19.9 = 3
  /\ debt_loading_base 3.2 20 = 4
  /\ debt_loading_base 3.2 30 = 5
  /\ debt_loading_base nan nan = 3.
Proof. repeat split; vm_compute; reflexivity. Qed.

(** The third end-to-end scenario: 2.1% ownership with performance equity. *)
Example equity_incentives_scenario :
  (cf ← fetch_and_normalize "Example SpinCo"; own ← ownership_hub cf;
   score_equity_incentives own)
  = Ok {| criterion := "Equity Incentives"; score := 4; confidence := 0.80;
          rationale := "Mgmt owns approx 2.1% with performance equity.";
          evidence_ids := [] |}.
Proof. vm_compute. reflexivity. Qed.

(** ** Properties of the scoring rules *)

Lemma float_neq (x y : float) :
  (x =? x)%float = true -> (x =? y)%float = false -> x <> y.
Proof. intros Hx Hxy ->. rewrite Hx in Hxy. discriminate. Qed.

Lemma get_present {V : Type} (d : gmap string V) k v dflt :
  d !! k = Some v -> Py.get d k dflt = v.
Proof. unfold Py.get. now intros ->. Qed.

Lemma get_absent {V : Type} (d : gmap string V) k dflt :
  d !! k = None -> Py.get d k dflt = dflt.
Proof. unfold Py.get. now intros ->. Qed.

(** C1, as the rule is coded: with net leverage 3.2 turns and an
    FCF-to-net-debt ratio of 22, [score_debt_loading] returns the score 4,
    the value of the top band once the ratio reaches 20 and stays below 30. *)
Theorem debt_loading_scenario_score_4 (cap : FeatureSet) :
  Py.float (Py.get (features cap) "net_leverage_turns" (VInt 0)) = Ok 3.2%float ->
  Py.float (Py.get (features cap) "fcf_to_net_debt_pct" (VInt 0)) = Ok 22%float ->
  score_debt_loading cap =
    Ok {| criterion := "Debt Loading"; score := 4%float; confidence := 0.75;
          rationale :=
            "Net leverage 3.2x; FCF/NetDebt approx 22% -> deleveraging plausible.";
          evidence_ids := [] |}.
Proof.
  intros Hnl Hfcf. unfold score_debt_loading. rewrite Hnl, Hfcf.
  vm_compute. reflexivity.
Qed.

Lemma debt_loading_scenario_score_4_witness :
  score_debt_loading demo_capital_structure =
    Ok {| criterion := "Debt Loading"; score := 4%float; confidence := 0.75;
          rationale :=
            "Net leverage 3.2x; FCF/NetDebt approx 22% -> deleveraging plausible.";
          evidence_ids := [] |}.
Proof.
  apply (debt_loading_scenario_score_4 demo_capital_structure);
    vm_compute; reflexivity.
Defined.

(** C1, as stated, fails: on net leverage 3.2 and ratio 22 the returned
    score is not 3. *)
Lemma debt_loading_scenario_not_3 :
  ~ (exists cs, score_debt_loading demo_capital_structure = Ok cs
                /\ score cs = 3%float).
Proof.
  intros [cs [Hcs Hscore]]. vm_compute in Hcs. injection Hcs as <-.
  revert Hscore. apply float_neq; vm_compute; reflexivity.
Qed.

(** C8: with [russell_eligible = 0] and an average daily dollar volume of
    12,000,000, below the 15,000,000 threshold, [score_index_exclusion]
    returns the score 5. *)
Theorem index_exclusion_scenario_score_5 (micro : FeatureSet) :
  Py.int (Py.get (features micro) "russell_eligible" (VInt 1)) = Ok 0 ->
  Py.float (Py.get (features micro) "avg_daily_dollar_volume" (VInt 0))
    = Ok 12000000%float ->
  score_index_exclusion micro =
    Ok {| criterion := "Index Exclusion"; score := 5%float; confidence := 0.70;
          rationale :=
            "Likely excluded from major indices at spin; thin ADV increases forced selling risk.";
          evidence_ids := [] |}.
Proof.
  intros Hruss Hadv. unfold score_index_exclusion. rewrite Hruss, Hadv.
  vm_compute. reflexivity.
Qed.

Lemma index_exclusion_scenario_score_5_witness :
  score_index_exclusion demo_microstructure =
    Ok {| criterion := "Index Exclusion"; score := 5%float; confidence := 0.70;
          rationale :=
            "Likely excluded from major indices at spin; thin ADV increases forced selling risk.";
          evidence_ids := [] |}.
Proof.
  apply (index_exclusion_scenario_score_5 demo_microstructure);
    vm_compute; reflexivity.
Defined.

(** *** Totality over the features read *)

Lemma readable_get {A : Type} (conv : value -> result A) fs k dflt :
  readable conv fs k -> succeeds (conv dflt) ->
  succeeds (conv (Py.get (features fs) k dflt)).
Proof.
  intros Hk Hd. unfold Py.get.
  destruct (features fs !! k) as [v|] eqn:E; simpl; [now apply Hk | exact Hd].
Qed.

Lemma float_accepts_float f : Py.float (VFloat f) = Ok f.
Proof. reflexivity. Qed.

Lemma float_accepts_bool b : Py.float (VBool b) = Ok (Py.float_of_bool b).
Proof. reflexivity. Qed.

Lemma int_accepts_int z : Py.int (VInt z) = Ok z.
Proof. reflexivity. Qed.

Lemma int_accepts_bool b : Py.int (VBool b) = Ok (if b then 1 else 0).
Proof. reflexivity. Qed.

Lemma float_default_0 : succeeds (Py.float (VInt 0)).
Proof. eexists. vm_compute. reflexivity. Qed.

Lemma debt_loading_succeeds fs :
  readable Py.float fs "net_leverage_turns" ->
  readable Py.float fs "fcf_to_net_debt_pct" ->
  succeeds (score_debt_loading fs).
Proof.
  intros Hnl Hfcf. unfold score_debt_loading.
  destruct (readable_get _ _ _ (VInt 0) Hnl float_default_0) as [nl ->].
  destruct (readable_get _ _ _ (VInt 0) Hfcf float_default_0) as [fcf ->].
  simpl. eexists. reflexivity.
Qed.

Lemma index_exclusion_succeeds fs :
  readable Py.int fs "russell_eligible" ->
  readable Py.float fs "avg_daily_dollar_volume" ->
  succeeds (score_index_exclusion fs).
Proof.
  intros Hruss Hadv. unfold score_index_exclusion.
  destruct (readable_get _ _ _ (VInt 1) Hruss) as [russ ->];
    [eexists; reflexivity|].
  destruct (readable_get _ _ _ (VInt 0) Hadv float_default_0) as [adv ->].
  simpl. destruct (index_exclusion_table russ adv). eexists. reflexivity.
Qed.

Lemma equity_incentives_succeeds fs :
  readable Py.float fs "mgmt_ownership_pct" ->
  readable Py.int fs "perf_equity_present" ->
  succeeds (score_equity_incentives fs).
Proof.
  intros Hpct Hperf. unfold score_equity_incentives.
  destruct (readable_get _ _ _ (VInt 0) Hpct float_default_0) as [pct ->].
  destruct (readable_get _ _ _ (VInt 0) Hperf) as [perf ->];
    [eexists; reflexivity|].
  simpl. eexists. reflexivity.
Qed.

Lemma succeeds_readable {A : Type} (conv : value -> result A) fs k dflt :
  succeeds (conv (Py.get (features fs) k dflt)) -> readable conv fs k.
Proof.
  intros Hs v Hv. now rewrite (get_present _ _ _ dflt Hv) in Hs.
Qed.

Lemma succeeds_bind {A B : Type} (r : result A) (k : A -> result B) :
  succeeds (r ≫= k) -> succeeds r.
Proof. destruct r as [a|e]; intros [b Hb]; [now exists a | discriminate]. Qed.

Lemma succeeds_bind_inner {A B : Type} (r : result A) (k : A -> result B) :
  succeeds (r ≫= k) -> exists a, r = Ok a /\ succeeds (k a).
Proof.
  destruct r as [a|e]; intros [b Hb]; [|discriminate].
  exists a. split; [reflexivity | now exists b].
Qed.

Lemma debt_loading_needs fs :
  succeeds (score_debt_loading fs) ->
  readable Py.float fs "net_leverage_turns"
  /\ readable Py.float fs "fcf_to_net_debt_pct".
Proof.
  unfold score_debt_loading. intros Hs. split.
  - eapply succeeds_readable, succeeds_bind, Hs.
  - apply succeeds_bind_inner in Hs as (nl & _ & Hs).
    eapply succeeds_readable, succeeds_bind, Hs.
Qed.

Lemma index_exclusion_needs fs :
  succeeds (score_index_exclusion fs) ->
  readable Py.int fs "russell_eligible"
  /\ readable Py.float fs "avg_daily_dollar_volume".
Proof.
  unfold score_index_exclusion. intros Hs. split.
  - eapply succeeds_readable, succeeds_bind, Hs.
  - apply succeeds_bind_inner in Hs as (russ & _ & Hs).
    eapply succeeds_readable, succeeds_bind, Hs.
Qed.

Lemma equity_incentives_needs fs :
  succeeds (score_equity_incentives fs) ->
  readable Py.float fs "mgmt_ownership_pct"
  /\ readable Py.int fs "perf_equity_present".
Proof.
  unfold score_equity_incentives. intros Hs. split.
  - eapply succeeds_readable, succeeds_bind, Hs.
  - apply succeeds_bind_inner in Hs as (pct & _ & Hs).
    eapply succeeds_readable, succeeds_bind, Hs.
Qed.

(** C3, as the scorers are coded: each Criterion Scorer succeeds and
    returns a CriterionScore on every FeatureSet in which each feature it
    reads is absent or is a value that the conversion applied to it
    ([float] or [int]) accepts; an absent feature takes its default and is
    never an error. On any other FeatureSet the scorer raises. *)
Theorem scorers_succeed_on_readable_features (fs : FeatureSet) :
  (readable Py.float fs "net_leverage_turns" ->
   readable Py.float fs "fcf_to_net_debt_pct" ->
   succeeds (score_debt_loading fs))
  /\ (readable Py.int fs "russell_eligible" ->
      readable Py.float fs "avg_daily_dollar_volume" ->
      succeeds (score_index_exclusion fs))
  /\ (readable Py.float fs "mgmt_ownership_pct" ->
      readable Py.int fs "perf_equity_present" ->
      succeeds (score_equity_incentives fs))
  /\ (succeeds (score_debt_loading fs) ->
      readable Py.float fs "net_leverage_turns"
      /\ readable Py.float fs "fcf_to_net_debt_pct")
  /\ (succeeds (score_index_exclusion fs) ->
      readable Py.int fs "russell_eligible"
      /\ readable Py.float fs "avg_daily_dollar_volume")
  /\ (succeeds (score_equity_incentives fs) ->
      readable Py.float fs "mgmt_ownership_pct"
      /\ readable Py.int fs "perf_equity_present").
Proof.
  repeat apply conj.
  - apply debt_loading_succeeds.
  - apply index_exclusion_succeeds.
  - apply equity_incentives_succeeds.
  - apply debt_loading_needs.
  - apply index_exclusion_needs.
  - apply equity_incentives_needs.
Qed.

Lemma scorers_succeed_on_readable_features_witness :
  succeeds (score_debt_loading demo_capital_structure)
  /\ succeeds (score_index_exclusion demo_capital_structure)
  /\ succeeds (score_equity_incentives demo_capital_structure).
Proof.
  destruct (scorers_succeed_on_readable_features demo_capital_structure)
    as (Hdebt & Hindex & Hequity & _).
  assert (Hread : forall A (conv : value -> result A) k,
             (forall v, features demo_capital_structure !! k = Some v ->
                        succeeds (conv v)) ->
             readable conv demo_capital_structure k) by (intros A conv k H; exact H).
  split; [|split].
  - apply Hdebt; apply Hread; intros v Hv; vm_compute in Hv;
      injection Hv as <-; eexists; vm_compute; reflexivity.
  - apply Hindex; apply Hread; intros v Hv; vm_compute in Hv; discriminate.
  - apply Hequity; apply Hread; intros v Hv; vm_compute in Hv; discriminate.
Defined.

(** C3, as stated, fails: a text value under a feature a scorer reads is a
    syntactically valid FeatureSet and makes the scorer raise [ValueError]. *)
Lemma scorer_raises_on_text_feature :
  score_debt_loading text_capital_structure = Raise ValueError
  /\ ~ succeeds (score_debt_loading text_capital_structure).
Proof.
  assert (H : score_debt_loading text_capital_structure = Raise ValueError)
    by (vm_compute; reflexivity).
  split; [exact H|]. intros [cs Hcs]. rewrite H in Hcs. discriminate.
Qed.

(** *** Defaults of absent features *)

Ltac absent_feature :=
  intros fs Hfs; unfold with_feature; cbv delta [score_debt_loading
    score_index_exclusion score_equity_incentives Py.get] beta; simpl features;
  rewrite Hfs, lookup_insert_eq, lookup_insert_ne by discriminate; reflexivity.

Lemma default_net_leverage_turns :
  defaults_to score_debt_loading "net_leverage_turns" (VInt 0).
Proof. absent_feature. Qed.

Lemma default_fcf_to_net_debt_pct :
  defaults_to score_debt_loading "fcf_to_net_debt_pct" (VInt 0).
Proof. absent_feature. Qed.

Lemma default_russell_eligible :
  defaults_to score_index_exclusion "russell_eligible" (VInt 1).
Proof. absent_feature. Qed.

Lemma default_avg_daily_dollar_volume :
  defaults_to score_index_exclusion "avg_daily_dollar_volume" (VInt 0).
Proof. absent_feature. Qed.

Lemma default_mgmt_ownership_pct :
  defaults_to score_equity_incentives "mgmt_ownership_pct" (VInt 0).
Proof. absent_feature. Qed.

Lemma default_perf_equity_present :
  defaults_to score_equity_incentives "perf_equity_present" (VInt 0).
Proof. absent_feature. Qed.

Lemma index_exclusion_eligible (adv : float) :
  index_exclusion_table 1 adv = (2, "Index eligible; less forced selling.").
Proof. reflexivity. Qed.

(** C10: an absent [russell_eligible] is read as 1 (index-eligible), while
    every other feature defaults to 0; so a FeatureSet without
    [russell_eligible] gets the score 2 whatever number its average daily
    dollar volume is, and no score it gets is the maximum 5. *)
Theorem russell_eligible_defaults_to_eligible (micro : FeatureSet) :
  features micro !! "russell_eligible" = None ->
  (defaults_to score_index_exclusion "russell_eligible" (VInt 1)
   /\ defaults_to score_index_exclusion "avg_daily_dollar_volume" (VInt 0)
   /\ defaults_to score_debt_loading "net_leverage_turns" (VInt 0)
   /\ defaults_to score_debt_loading "fcf_to_net_debt_pct" (VInt 0)
   /\ defaults_to score_equity_incentives "mgmt_ownership_pct" (VInt 0)
   /\ defaults_to score_equity_incentives "perf_equity_present" (VInt 0))
  /\ (forall adv,
        Py.float (Py.get (features micro) "avg_daily_dollar_volume" (VInt 0))
          = Ok adv ->
        score_index_exclusion micro =
          Ok {| criterion := "Index Exclusion"; score := 2%float;
                confidence := 0.70;
                rationale := "Index eligible; less forced selling.";
                evidence_ids := [] |})
  /\ (forall cs, score_index_exclusion micro = Ok cs ->
                 score cs = 2%float /\ score cs <> 5%float).
Proof.
  intros Hruss.
  assert (Hscore : forall adv,
            Py.float (Py.get (features micro) "avg_daily_dollar_volume" (VInt 0))
              = Ok adv ->
            score_index_exclusion micro =
              Ok {| criterion := "Index Exclusion"; score := 2%float;
                    confidence := 0.70;
                    rationale := "Index eligible; less forced selling.";
                    evidence_ids := [] |}).
  { intros adv Hadv. unfold score_index_exclusion.
    rewrite (get_absent _ _ _ Hruss), Hadv.
    change (Py.int (VInt 1)) with (Ok 1 : result Z).
    cbv beta iota delta [mbind result_bind].
    rewrite index_exclusion_eligible. reflexivity. }
  split; [|split].
  - repeat split.
    + exact default_russell_eligible.
    + exact default_avg_daily_dollar_volume.
    + exact default_net_leverage_turns.
    + exact default_fcf_to_net_debt_pct.
    + exact default_mgmt_ownership_pct.
    + exact default_perf_equity_present.
  - exact Hscore.
  - intros cs Hcs.
    destruct (Py.float (Py.get (features micro) "avg_daily_dollar_volume" (VInt 0)))
      as [adv|e] eqn:Hadv.
    + rewrite (Hscore adv eq_refl) in Hcs. injection Hcs as <-. simpl.
      split; [reflexivity|]. apply float_neq; vm_compute; reflexivity.
    + unfold score_index_exclusion in Hcs.
      rewrite (get_absent _ _ _ Hruss), Hadv in Hcs. discriminate.
Qed.

Lemma russell_eligible_defaults_to_eligible_witness :
  score_index_exclusion unlisted_microstructure =
    Ok {| criterion := "Index Exclusion"; score := 2%float; confidence := 0.70;
          rationale := "Index eligible; less forced selling.";
          evidence_ids := [] |}.
Proof.
  destruct (russell_eligible_defaults_to_eligible unlisted_microstructure)
    as (_ & Hscore & _); [vm_compute; reflexivity|].
  apply (Hscore 12000000%float). vm_compute. reflexivity.
Defined.

(** *** The order of binary64 numbers *)

Lemma SFleb_trans (x y z : spec_float) :
  SFleb x y = true -> SFleb y z = true -> SFleb x z = true.
Proof.
  unfold SFleb, SFcompare.
  destruct x as [sx|sx| |sx mx ex], y as [sy|sy| |sy my ey],
    z as [sz|sz| |sz mz ez];
    try destruct sx; try destruct sy; try destruct sz;
    try discriminate; try reflexivity;
    change (Pos.compare_cont Eq) with Pos.compare;
    repeat match goal with
           | |- context [Z.compare ?a ?b] => destruct (Z.compare_spec a b)
           | |- context [Pos.compare ?a ?b] => destruct (Pos.compare_spec a b)
           end;
    simpl; try discriminate; try reflexivity; intros; exfalso; lia.
Qed.

Lemma leb_trans (x y z : float) :
  (x <=? y)%float = true -> (y <=? z)%float = true -> (x <=? z)%float = true.
Proof. rewrite !leb_spec. apply SFleb_trans. Qed.

(** *** Rounding keeps magnitudes

    Digits of the mantissa plus exponent never drop below a bound that is
    at least 0 when a sum or a product is rounded to binary64: the
    effective weights and their running total are at least a half. *)

Lemma digits2_pos_size (p : positive) : digits2_pos p = Pos.size p.
Proof. induction p as [p IH|p IH|]; simpl; now rewrite ?IH. Qed.

Lemma Zdigits2_log2 (m : Z) : 0 < m -> Zdigits2 m = Z.log2 m + 1.
Proof.
  destruct m as [|p|p]; try lia. intros _. simpl. rewrite digits2_pos_size.
  destruct p as [p|p|]; simpl; try rewrite Pos2Z.inj_succ; lia.
Qed.

Lemma Zdigits2_mono (a b : Z) : 0 < a -> a <= b -> Zdigits2 a <= Zdigits2 b.
Proof.
  intros Ha Hab. rewrite !Zdigits2_log2 by lia.
  pose proof (Z.log2_le_mono a b Hab). lia.
Qed.

Lemma Zdigits2_div_pow2 (m n : Z) :
  0 < m -> 0 <= n < Zdigits2 m ->
  0 < m / 2 ^ n /\ Zdigits2 (m / 2 ^ n) = Zdigits2 m - n.
Proof.
  intros Hm Hn. rewrite Zdigits2_log2 in Hn by lia.
  assert (Hpos : 0 < m / 2 ^ n).
  { apply Z.div_str_pos. split; [apply Z.pow_pos_nonneg; lia|].
    apply Z.le_trans with (2 ^ Z.log2 m).
    - apply Z.pow_le_mono_r; lia.
    - apply Z.log2_spec. lia. }
  split; [exact Hpos|].
  rewrite !Zdigits2_log2 by lia.
  rewrite <- Z.shiftr_div_pow2 by lia. rewrite Z.log2_shiftr by lia. lia.
Qed.

Lemma Zdigits2_mul_pow2 (m n : Z) :
  0 < m -> 0 <= n -> Zdigits2 (m * 2 ^ n) = Zdigits2 m + n.
Proof.
  intros Hm Hn.
  assert (0 < m * 2 ^ n)
    by (apply Z.mul_pos_pos; [lia | apply Z.pow_pos_nonneg; lia]).
  rewrite !Zdigits2_log2 by lia.
  rewrite <- Z.shiftl_mul_pow2 by lia. rewrite Z.log2_shiftl by lia. lia.
Qed.

Lemma Zdigits2_mul (a b : Z) :
  0 < a -> 0 < b -> Zdigits2 a + Zdigits2 b - 1 <= Zdigits2 (a * b).
Proof.
  intros Ha Hb. assert (0 < a * b) by lia.
  rewrite !Zdigits2_log2 by lia.
  pose proof (Z.log2_mul_below a b Ha Hb). lia.
Qed.

(** Shifting a mantissa right divides it by a power of two. *)
Lemma shr_1_m (mrs : shr_record) :
  0 <= shr_m mrs -> shr_m (shr_1 mrs) = shr_m mrs / 2.
Proof.
  destruct mrs as [m r s]. simpl. intros Hm.
  destruct m as [|[p|p|]|p]; simpl; try lia; try reflexivity.
  - rewrite Pos2Z.inj_xI. apply Z.div_unique with 1; lia.
  - rewrite Pos2Z.inj_xO. apply Z.div_unique with 0; lia.
Qed.

Lemma pow2_pos (n : Z) : 0 <= n -> 0 < 2 ^ n.
Proof. intros Hn. apply Z.pow_pos_nonneg; lia. Qed.

Lemma iter_shr_1_m (p : positive) (mrs : shr_record) :
  0 <= shr_m mrs ->
  shr_m (SpecFloat.iter_pos shr_1 p mrs) = shr_m mrs / 2 ^ Zpos p.
Proof.
  revert mrs. induction p as [p IH|p IH|]; intros mrs Hm;
    simpl SpecFloat.iter_pos.
  - assert (H1 : 0 <= shr_m (shr_1 mrs)).
    { rewrite shr_1_m by lia. apply Z.div_pos; lia. }
    assert (H2 : 0 <= shr_m (SpecFloat.iter_pos shr_1 p (shr_1 mrs))).
    { rewrite IH by lia. apply Z.div_pos; [lia | apply pow2_pos; lia]. }
    rewrite IH, IH, shr_1_m by lia.
    pose proof (pow2_pos (Zpos p)) as Hp.
    rewrite !Z.div_div by lia.
    f_equal. rewrite <- Z.pow_add_r, <- Z.pow_succ_r by lia. f_equal. lia.
  - assert (H2 : 0 <= shr_m (SpecFloat.iter_pos shr_1 p mrs)).
    { rewrite IH by lia. apply Z.div_pos; [lia | apply pow2_pos; lia]. }
    rewrite IH, IH by lia.
    pose proof (pow2_pos (Zpos p)) as Hp.
    rewrite !Z.div_div by lia.
    f_equal. rewrite <- Z.pow_add_r by lia. f_equal. lia.
  - rewrite shr_1_m by lia. reflexivity.
Qed.

Lemma shr_record_of_loc_m m l : shr_m (shr_record_of_loc m l) = m.
Proof. destruct l as [|[| |]]; reflexivity. Qed.

(** The mantissa and exponent after [shr_fexp], for a magnitude of at
    least a half. *)
Lemma shr_fexp_mag (m e : Z) (l : location) :
  0 < m -> 0 <= Zdigits2 m + e ->
  exists m' e' l',
    shr_fexp prec emax m e l = (l', e') /\ shr_m l' = m'
    /\ 0 < m' /\ Zdigits2 m' + e' = Zdigits2 m + e /\ Zdigits2 m' <= 53.
Proof.
  intros Hm Hmag. unfold shr_fexp, shr.
  assert (Hf : fexp prec emax (Zdigits2 m + e) = Zdigits2 m + e - 53).
  { unfold fexp, SpecFloat.emin, prec, emax. lia. }
  rewrite Hf.
  destruct (Zdigits2 m + e - 53 - e) as [|p|p] eqn:Hn.
  - exists m, e, (shr_record_of_loc m l). rewrite shr_record_of_loc_m.
    repeat split; try lia.
  - exists (m / 2 ^ Zpos p), (e + Zpos p),
      (SpecFloat.iter_pos shr_1 p (shr_record_of_loc m l)).
    rewrite iter_shr_1_m by (rewrite shr_record_of_loc_m; lia).
    rewrite shr_record_of_loc_m.
    destruct (Zdigits2_div_pow2 m (Zpos p)) as [Hpos Hd]; [lia|lia|].
    repeat split; try lia.
  - exists m, e, (shr_record_of_loc m l). rewrite shr_record_of_loc_m.
    repeat split; try lia.
Qed.

Lemma round_nearest_even_bounds m l :
  m <= round_nearest_even m l <= m + 1.
Proof.
  unfold round_nearest_even. destruct l as [|[| |]]; try lia.
  destruct (Z.even m); lia.
Qed.

Lemma binary_round_aux_mag (mx ex : Z) (lx : location) (k : Z) :
  0 < mx -> 0 <= k -> k <= Zdigits2 mx + ex ->
  mag_ge k (binary_round_aux prec emax false mx ex lx).
Proof.
  intros Hm Hk Hmag. unfold binary_round_aux.
  destruct (shr_fexp_mag mx ex lx Hm)
    as (m' & e' & l' & -> & Hm' & Hpos' & Hd' & _); [lia|].
  rewrite Hm'.
  pose proof (round_nearest_even_bounds m' (loc_of_shr_record l')) as Hr.
  set (m1 := round_nearest_even m' (loc_of_shr_record l')) in *.
  assert (Hd1 : Zdigits2 m' <= Zdigits2 m1) by (apply Zdigits2_mono; lia).
  destruct (shr_fexp_mag m1 e' loc_Exact)
    as (m'' & e'' & l'' & -> & Hm'' & Hpos'' & Hd'' & _); [lia|lia|].
  rewrite Hm''. destruct m'' as [|p|p]; try lia.
  destruct (e'' <=? emax - prec); unfold mag_ge; [lia|exact I].
Qed.

Lemma mag_ge_nonneg k x : mag_ge k x -> nonneg x.
Proof. destruct x as [s|s| |s m e]; simpl; try destruct s; tauto. Qed.

Lemma shr_fexp_nonneg (m e : Z) (l : location) :
  0 <= m -> 0 <= shr_m (fst (shr_fexp prec emax m e l)).
Proof.
  intros Hm. unfold shr_fexp, shr.
  destruct (fexp prec emax (Zdigits2 m + e) - e) as [|p|p]; simpl;
    try (rewrite shr_record_of_loc_m; lia).
  rewrite iter_shr_1_m by (rewrite shr_record_of_loc_m; lia).
  rewrite shr_record_of_loc_m. apply Z.div_pos; [lia | apply pow2_pos; lia].
Qed.

Lemma binary_round_aux_nonneg (mx ex : Z) (lx : location) :
  0 <= mx -> nonneg (binary_round_aux prec emax false mx ex lx).
Proof.
  intros Hm. unfold binary_round_aux.
  pose proof (shr_fexp_nonneg mx ex lx Hm) as H1.
  destruct (shr_fexp prec emax mx ex lx) as [mrs' e']. simpl in H1.
  pose proof (round_nearest_even_bounds (shr_m mrs') (loc_of_shr_record mrs')) as Hr.
  pose proof (shr_fexp_nonneg (round_nearest_even (shr_m mrs') (loc_of_shr_record mrs'))
                e' loc_Exact) as H2.
  destruct (shr_fexp prec emax _ e' loc_Exact) as [mrs'' e'']. simpl in H2.
  destruct (shr_m mrs'') as [|p|p]; [exact I| |lia].
  destruct (e'' <=? emax - prec); exact I.
Qed.

Lemma iter_xO (m d : positive) : Zpos (Pos.iter xO m d) = Zpos m * 2 ^ Zpos d.
Proof.
  induction d as [|d IH] using Pos.peano_ind.
  - simpl. lia.
  - rewrite Pos.iter_succ, Pos2Z.inj_xO, IH, Pos2Z.inj_succ, Z.pow_succ_r by lia.
    lia.
Qed.

(** [shl_align] keeps the value and, with it, digits plus exponent. *)
Lemma shl_align_digits (m : positive) (e e' : Z) :
  Zdigits2 (Zpos (fst (shl_align m e e'))) + snd (shl_align m e e')
  = Zdigits2 (Zpos m) + e.
Proof.
  unfold shl_align. destruct (e' - e) as [|d|d] eqn:Hd; simpl fst; simpl snd;
    try reflexivity.
  rewrite iter_xO, Zdigits2_mul_pow2 by lia. lia.
Qed.

Lemma shl_align_ge (m : positive) (e e' : Z) :
  Zpos m <= Zpos (fst (shl_align m e e')).
Proof.
  unfold shl_align. destruct (e' - e) as [|d|d]; simpl fst; try lia.
  rewrite iter_xO. pose proof (pow2_pos (Zpos d)). nia.
Qed.

Lemma shl_align_fst (m : positive) (e e' : Z) :
  e' <= e -> Zpos (fst (shl_align m e e')) = Zpos m * 2 ^ (e - e').
Proof.
  intros Hle. unfold shl_align. destruct (e' - e) as [|d|d] eqn:Hd; simpl fst.
  - replace (e - e') with 0 by lia. lia.
  - lia.
  - rewrite iter_xO. f_equal. f_equal. lia.
Qed.

Lemma binary_round_mag (m : positive) (e k : Z) :
  0 <= k -> k <= Zdigits2 (Zpos m) + e ->
  mag_ge k (binary_round prec emax false m e).
Proof.
  intros Hk Hmag. unfold binary_round.
  pose proof (shl_align_digits m e (fexp prec emax (Zpos (digits2_pos m) + e))) as Hd.
  destruct (shl_align m e _) as [mz ez]. cbn [fst snd] in Hd.
  apply binary_round_aux_mag; lia.
Qed.

Lemma SFadd_mag (k : Z) (x y : spec_float) :
  0 <= k -> nonneg x -> nonneg y -> mag_ge k x \/ mag_ge k y ->
  mag_ge k (SFadd prec emax x y).
Proof.
  intros Hk Hx Hy Hxy.
  destruct x as [sx|sx| |sx mx ex], y as [sy|sy| |sy my ey];
    try destruct sx; try destruct sy; unfold mag_ge, nonneg in *; try tauto;
    try (simpl; tauto).
  unfold SFadd, cond_Zopp.
  set (ez := Z.min ex ey).
  assert (Hx' := shl_align_fst mx ex ez ltac:(lia)).
  assert (Hy' := shl_align_fst my ey ez ltac:(lia)).
  set (mx' := fst (shl_align mx ex ez)) in *.
  set (my' := fst (shl_align my ey ez)) in *.
  change (Z.pos mx' + Z.pos my') with (Zpos (mx' + my')).
  unfold binary_normalize. apply binary_round_mag; [exact Hk|].
  destruct Hxy as [H|H].
  - apply Z.le_trans with (Zdigits2 (Zpos mx') + ez).
    + rewrite Hx', Zdigits2_mul_pow2 by lia. lia.
    + pose proof (Zdigits2_mono (Zpos mx') (Zpos (mx' + my'))). lia.
  - apply Z.le_trans with (Zdigits2 (Zpos my') + ez).
    + rewrite Hy', Zdigits2_mul_pow2 by lia. lia.
    + pose proof (Zdigits2_mono (Zpos my') (Zpos (mx' + my'))). lia.
Qed.

Lemma SFmul_mag (a b : Z) (x y : spec_float) :
  0 <= a + b - 1 -> mag_ge a x -> mag_ge b y ->
  mag_ge (a + b - 1) (SFmul prec emax x y).
Proof.
  intros Hk Hx Hy.
  destruct x as [sx|sx| |sx mx ex], y as [sy|sy| |sy my ey];
    try destruct sx; try destruct sy; unfold mag_ge, nonneg in *; try tauto;
    try (simpl; tauto).
  unfold SFmul. simpl xorb.
  apply binary_round_aux_mag; [lia|lia|].
  pose proof (Zdigits2_mul (Zpos mx) (Zpos my)). rewrite Pos2Z.inj_mul. lia.
Qed.

Lemma SFmul_nonneg (x y : spec_float) :
  mag_ge 0 x -> x <> S754_infinity false -> nonneg y ->
  nonneg (SFmul prec emax x y).
Proof.
  intros Hx Hfin Hy.
  destruct x as [sx|sx| |sx mx ex], y as [sy|sy| |sy my ey];
    try destruct sx; try destruct sy; unfold mag_ge, nonneg in *; try tauto;
    try (simpl; tauto).
  unfold SFmul. simpl xorb. apply binary_round_aux_nonneg. lia.
Qed.

(** *** Debt Loading: range and monotonicity *)

Lemma debt_loading_base_range (nl fcf : float) :
  1 <= debt_loading_base nl fcf <= 5.
Proof.
  unfold debt_loading_base.
  destruct (nl <=? 1.5)%float, (nl <=? 3.0)%float, (20 <=? fcf)%float,
    (30 <=? fcf)%float; lia.
Qed.

Lemma debt_loading_base_band (nl nl' fcf : float) :
  leverage_band nl = leverage_band nl' ->
  debt_loading_base nl fcf = debt_loading_base nl' fcf.
Proof.
  unfold leverage_band, debt_loading_base.
  destruct (nl <=? 1.5)%float, (nl <=? 3.0)%float, (nl' <=? 1.5)%float,
    (nl' <=? 3.0)%float; try discriminate; reflexivity.
Qed.

(** Across the bands as well, the table never decreases with leverage. *)
Lemma debt_loading_base_monotone (nl nl' fcf : float) :
  (nl <=? nl')%float = true ->
  debt_loading_base nl fcf <= debt_loading_base nl' fcf.
Proof.
  intros Hle. unfold debt_loading_base.
  destruct (nl' <=? 1.5)%float eqn:H1'.
  { rewrite (leb_trans _ _ _ Hle H1'). lia. }
  destruct (nl' <=? 3.0)%float eqn:H3'.
  { rewrite (leb_trans _ _ _ Hle H3'). destruct (nl <=? 1.5)%float; lia. }
  destruct (nl <=? 1.5)%float, (nl <=? 3.0)%float, (20 <=? fcf)%float,
    (30 <=? fcf)%float; lia.
Qed.

Lemma of_int_leb (a b : Z) :
  1 <= a <= 5 -> 1 <= b <= 5 -> a <= b ->
  (Py.of_int a <=? Py.of_int b)%float = true.
Proof.
  intros Ha Hb Hab.
  assert (Ea : a = 1 \/ a = 2 \/ a = 3 \/ a = 4 \/ a = 5) by lia.
  assert (Eb : b = 1 \/ b = 2 \/ b = 3 \/ b = 4 \/ b = 5) by lia.
  destruct Ea as [-> | [-> | [-> | [-> | ->]]]];
    destruct Eb as [-> | [-> | [-> | [-> | ->]]]];
    try lia; vm_compute; reflexivity.
Qed.

Lemma score_debt_loading_eq (cap : FeatureSet) (nl fcf : float) :
  Py.float (Py.get (features cap) "net_leverage_turns" (VInt 0)) = Ok nl ->
  Py.float (Py.get (features cap) "fcf_to_net_debt_pct" (VInt 0)) = Ok fcf ->
  exists cs, score_debt_loading cap = Ok cs
             /\ score cs = Py.of_int (debt_loading_base nl fcf).
Proof.
  intros Hnl Hfcf. unfold score_debt_loading. rewrite Hnl, Hfcf.
  eexists. split; reflexivity.
Qed.

(** C6: whatever the net leverage and the FCF-to-net-debt ratio, the score
    of [score_debt_loading] lies in the closed range from 1 to 5, and for a
    fixed ratio it does not decrease when the leverage grows within a band
    (nor, in fact, across bands). *)
Theorem debt_loading_range_and_monotone (cap cap' : FeatureSet)
    (nl nl' fcf : float) :
  Py.float (Py.get (features cap) "net_leverage_turns" (VInt 0)) = Ok nl ->
  Py.float (Py.get (features cap) "fcf_to_net_debt_pct" (VInt 0)) = Ok fcf ->
  Py.float (Py.get (features cap') "net_leverage_turns" (VInt 0)) = Ok nl' ->
  Py.float (Py.get (features cap') "fcf_to_net_debt_pct" (VInt 0)) = Ok fcf ->
  exists cs cs',
    score_debt_loading cap = Ok cs /\ score_debt_loading cap' = Ok cs'
    /\ (1 <=? score cs)%float = true /\ (score cs <=? 5)%float = true
    /\ (leverage_band nl = leverage_band nl' -> (nl <=? nl')%float = true ->
        (score cs <=? score cs')%float = true)
    /\ ((nl <=? nl')%float = true -> (score cs <=? score cs')%float = true).
Proof.
  intros Hnl Hfcf Hnl' Hfcf'.
  destruct (score_debt_loading_eq cap nl fcf Hnl Hfcf) as (cs & Hcs & Es).
  destruct (score_debt_loading_eq cap' nl' fcf Hnl' Hfcf') as (cs' & Hcs' & Es').
  pose proof (debt_loading_base_range nl fcf) as R.
  pose proof (debt_loading_base_range nl' fcf) as R'.
  exists cs, cs'. rewrite Es, Es'. repeat split; try assumption.
  - apply (of_int_leb 1); lia.
  - apply (of_int_leb _ 5); lia.
  - intros Hband _. rewrite (debt_loading_base_band nl nl' fcf Hband).
    apply of_int_leb; lia.
  - intros Hle. apply of_int_leb; try assumption.
    now apply debt_loading_base_monotone.
Qed.

Lemma debt_loading_range_and_monotone_witness :
  exists cs cs',
    score_debt_loading demo_capital_structure = Ok cs
    /\ score_debt_loading levered_capital_structure = Ok cs'
    /\ (1 <=? score cs)%float = true /\ (score cs <=? 5)%float = true
    /\ (score cs <=? score cs')%float = true.
Proof.
  destruct (debt_loading_range_and_monotone demo_capital_structure
              levered_capital_structure 3.2 3.6 22)
    as (cs & cs' & Hcs & Hcs' & Hlo & Hhi & Hband & _);
    try (vm_compute; reflexivity).
  exists cs, cs'. repeat split; try assumption.
  apply Hband; vm_compute; reflexivity.
Defined.

(** *** Determinism *)

(** A scorer's result is a function of the converted inputs alone: the
    same numbers under another representation ([22], [22.0], ["22"]) give
    the same CriterionScore. *)
Lemma debt_loading_reads (a b : FeatureSet) :
  Py.float (Py.get (features a) "net_leverage_turns" (VInt 0))
    = Py.float (Py.get (features b) "net_leverage_turns" (VInt 0)) ->
  Py.float (Py.get (features a) "fcf_to_net_debt_pct" (VInt 0))
    = Py.float (Py.get (features b) "fcf_to_net_debt_pct" (VInt 0)) ->
  score_debt_loading a = score_debt_loading b.
Proof. intros H1 H2. unfold score_debt_loading. now rewrite H1, H2. Qed.

Lemma index_exclusion_reads (a b : FeatureSet) :
  Py.int (Py.get (features a) "russell_eligible" (VInt 1))
    = Py.int (Py.get (features b) "russell_eligible" (VInt 1)) ->
  Py.float (Py.get (features a) "avg_daily_dollar_volume" (VInt 0))
    = Py.float (Py.get (features b) "avg_daily_dollar_volume" (VInt 0)) ->
  score_index_exclusion a = score_index_exclusion b.
Proof. intros H1 H2. unfold score_index_exclusion. now rewrite H1, H2. Qed.

Lemma equity_incentives_reads (a b : FeatureSet) :
  Py.float (Py.get (features a) "mgmt_ownership_pct" (VInt 0))
    = Py.float (Py.get (features b) "mgmt_ownership_pct" (VInt 0)) ->
  Py.int (Py.get (features a) "perf_equity_present" (VInt 0))
    = Py.int (Py.get (features b) "perf_equity_present" (VInt 0)) ->
  score_equity_incentives a = score_equity_incentives b.
Proof. intros H1 H2. unfold score_equity_incentives. now rewrite H1, H2. Qed.

(** ** Properties of the composer *)

Lemma compose_loop (scs : list CriterionScore) (num den : float) :
  fold_left compose_step scs (num, den) =
    (fold_left (fun acc sc => (acc + effective_weight sc * score sc)%float) scs num,
     fold_left (fun acc sc => (acc + effective_weight sc)%float) scs den).
Proof.
  revert num den. induction scs as [|sc scs IH]; intros num den; simpl.
  - reflexivity.
  - unfold compose_step at 2. simpl fst. simpl snd.
    change (Py.get WEIGHTS (criterion sc) 1.0%float) with (base_weight (criterion sc)).
    apply IH.
Qed.

Lemma compose_total (scs : list CriterionScore) :
  exists c, compose scs = Ok (c, scs).
Proof.
  unfold compose. destruct (fold_left compose_step scs _) as [num den].
  unfold Py.truthy, Py.div. destruct (den =? 0)%float; simpl; eexists; reflexivity.
Qed.

(** C5: [compose] applied to the empty collection returns the composite
    score 0 and does not fail (it fails on no collection at all). *)
Theorem compose_empty :
  compose [] = Ok (0%float, [])
  /\ (forall scs, exists c, compose scs = Ok (c, scs)).
Proof. split; [reflexivity | exact compose_total]. Qed.

Lemma base_weight_unlisted (name : string) :
  name ∉ criteria -> base_weight name = 1.0%float.
Proof.
  intros Hname. unfold base_weight, WEIGHTS.
  rewrite !lookup_insert_ne, lookup_singleton_ne; [reflexivity|..];
    intros <-; apply Hname; unfold criteria; set_solver.
Qed.

Lemma leb_zero_nonneg (c : float) : (0 <=? c)%float = true -> nonneg (Prim2SF c).
Proof.
  rewrite FloatAxioms.leb_spec. change (Prim2SF 0) with (S754_zero false).
  destruct (Prim2SF c) as [s|s| |s m e]; try destruct s; simpl;
    try discriminate; intros _; exact I.
Qed.

Lemma mag_ge_truthy (x : float) : mag_ge 0 (Prim2SF x) -> Py.truthy x = true.
Proof.
  unfold Py.truthy. rewrite FloatAxioms.eqb_spec. change (Prim2SF 0) with (S754_zero false).
  destruct (Prim2SF x) as [s|s| |s m e]; try destruct s; simpl; tauto.
Qed.

Lemma base_weight_cases (name : string) :
  base_weight name = 1.3%float \/ base_weight name = 1.2%float
  \/ base_weight name = 1.5%float \/ base_weight name = 1.0%float.
Proof.
  unfold base_weight, WEIGHTS.
  destruct (decide (name = "Debt Loading")) as [->|H1]; [left; reflexivity|].
  destruct (decide (name = "Index Exclusion")) as [->|H2];
    [right; left; reflexivity|].
  destruct (decide (name = "Equity Incentives")) as [->|H3];
    [right; right; left; reflexivity|].
  rewrite !lookup_insert_ne, lookup_singleton_ne by congruence. tauto.
Qed.

Lemma base_weight_mag (name : string) : mag_ge 1 (Prim2SF (base_weight name)).
Proof.
  destruct (base_weight_cases name) as [-> | [-> | [-> | ->]]];
    vm_compute; discriminate.
Qed.

(** An effective weight is at least a half when the confidence is not
    negative. *)
Lemma effective_weight_mag (sc : CriterionScore) :
  (0 <=? confidence sc)%float = true ->
  mag_ge 0 (Prim2SF (effective_weight sc)).
Proof.
  intros Hc. apply leb_zero_nonneg in Hc. unfold effective_weight.
  rewrite FloatAxioms.mul_spec, FloatAxioms.add_spec, FloatAxioms.mul_spec.
  change (Prim2SF 0.5) with (S754_finite false 4503599627370496 (-53)).
  apply (SFmul_mag 1 0); [lia | apply base_weight_mag |].
  apply SFadd_mag; [lia | exact I | | left; unfold mag_ge; simpl; lia].
  apply SFmul_nonneg; [unfold mag_ge; simpl; lia | discriminate | exact Hc].
Qed.

Lemma weight_total_step (acc : float) (sc : CriterionScore) :
  nonneg (Prim2SF acc) -> (0 <=? confidence sc)%float = true ->
  mag_ge 0 (Prim2SF (acc + effective_weight sc)%float).
Proof.
  intros Hacc Hc. rewrite FloatAxioms.add_spec.
  pose proof (effective_weight_mag sc Hc) as Hw.
  apply SFadd_mag; [lia | exact Hacc | eapply mag_ge_nonneg; exact Hw | now right].
Qed.

Lemma weight_loop_mag (scs : list CriterionScore) (acc : float) :
  Forall (fun sc => (0 <=? confidence sc)%float = true) scs ->
  mag_ge 0 (Prim2SF acc) ->
  mag_ge 0 (Prim2SF (fold_left (fun a sc => (a + effective_weight sc)%float) scs acc)).
Proof.
  intros Hall. revert acc. induction Hall as [|sc scs Hc _ IH]; intros acc Hacc.
  - exact Hacc.
  - simpl. apply IH. apply weight_total_step; [|exact Hc].
    eapply mag_ge_nonneg; exact Hacc.
Qed.

(** The total weight of a non-empty list of scores with non-negative
    confidence is at least a half, hence not zero. *)
Lemma weight_total_truthy (scs : list CriterionScore) :
  scs <> [] ->
  Forall (fun sc => (0 <=? confidence sc)%float = true) scs ->
  Py.truthy (weight_total scs) = true.
Proof.
  intros Hne Hall. apply mag_ge_truthy. unfold weight_total.
  destruct Hall as [|sc scs Hc Hall]; [congruence|].
  simpl. apply weight_loop_mag; [exact Hall|].
  apply weight_total_step; [exact I | exact Hc].
Qed.

(** Wherever the total weight is not zero, [compose] is the quotient of
    the two sums. *)
Lemma compose_mean_where_defined (scs : list CriterionScore) :
  Py.truthy (weight_total scs) = true ->
  compose scs = Ok ((weighted_total scs / weight_total scs)%float, scs).
Proof.
  intros Hden. unfold compose. rewrite compose_loop.
  fold (weighted_total scs). fold (weight_total scs).
  rewrite Hden. unfold Py.div. unfold Py.truthy in Hden.
  destruct (weight_total scs =? 0)%float; [discriminate|reflexivity].
Qed.

(** C4: for every list of CriterionScores (not empty, confidences not
    negative, as the data contract has them), [compose] returns the
    weighted arithmetic mean, the sum of effective weight times score over
    the sum of effective weights, where the effective weight is the base
    weight times (0.5 + 0.5 x confidence) and a criterion name outside the
    weight table has base weight exactly 1.0. *)
Theorem compose_weighted_mean (scs : list CriterionScore) :
  scs <> [] ->
  Forall (fun sc => (0 <=? confidence sc)%float = true) scs ->
  compose scs = Ok ((weighted_total scs / weight_total scs)%float, scs)
  /\ (forall sc, effective_weight sc =
         (base_weight (criterion sc) * (0.5 + 0.5 * confidence sc))%float)
  /\ (forall name, name ∉ criteria -> base_weight name = 1.0%float)
  /\ base_weight "Debt Loading" = 1.3%float
  /\ base_weight "Index Exclusion" = 1.2%float
  /\ base_weight "Equity Incentives" = 1.5%float.
Proof.
  intros Hne Hconf. split.
  - apply compose_mean_where_defined. now apply weight_total_truthy.
  - split; [reflexivity|]. split; [exact base_weight_unlisted|].
    repeat split; vm_compute; reflexivity.
Qed.

Lemma compose_weighted_mean_witness :
  compose demo_scores
    = Ok ((weighted_total demo_scores / weight_total demo_scores)%float,
          demo_scores).
Proof.
  destruct (compose_weighted_mean demo_scores) as (Hmean & _).
  - discriminate.
  - repeat constructor.
  - exact Hmean.
Defined.

Lemma compose_zero_weight (scs : list CriterionScore) :
  Py.truthy (weight_total scs) = false -> compose scs = Ok (0%float, scs).
Proof.
  intros Hden. unfold compose. rewrite compose_loop.
  fold (weighted_total scs). fold (weight_total scs). now rewrite Hden.
Qed.

(** ** Properties of the event loop *)

Section GatherFacts.
Context {A : Type}.
Variable children : list (result A).

Let step := Asyncio.complete children.

Lemma complete_outer_done st i o :
  Asyncio.outer st = Some o -> Asyncio.outer (step st i) = Some o.
Proof.
  intros Ho. unfold step, Asyncio.complete.
  destruct (children !! i) as [r|]; [|exact Ho].
  unfold Asyncio.done_callback. now rewrite Ho.
Qed.

Lemma run_outer_done order st o :
  Asyncio.outer st = Some o ->
  Asyncio.outer (fold_left step order st) = Some o.
Proof.
  revert st. induction order as [|i order IH]; intros st Ho; simpl.
  - exact Ho.
  - apply IH. now apply complete_outer_done.
Qed.

Lemma complete_length st i :
  length (Asyncio.futs (step st i)) = length (Asyncio.futs st).
Proof.
  unfold step, Asyncio.complete. destruct (children !! i) as [r|]; [|reflexivity].
  unfold Asyncio.done_callback.
  destruct (Asyncio.outer st); [|destruct r; [destruct (_ =? _)%nat|]];
    simpl; apply length_insert.
Qed.

Lemma run_length order st :
  length (Asyncio.futs (fold_left step order st)) = length (Asyncio.futs st).
Proof.
  revert st. induction order as [|i order IH]; intros st; simpl.
  - reflexivity.
  - now rewrite IH, complete_length.
Qed.

Lemma complete_futs st i r :
  children !! i = Some r ->
  Asyncio.futs (step st i) = <[i := Some r]> (Asyncio.futs st).
Proof.
  intros Hi. unfold step, Asyncio.complete. rewrite Hi.
  unfold Asyncio.done_callback.
  destruct (Asyncio.outer st); [|destruct r; [destruct (_ =? _)%nat|]];
    reflexivity.
Qed.

(** Each child's future holds its outcome once the child has completed. *)
Lemma run_futs order st j r :
  length (Asyncio.futs st) = length children ->
  children !! j = Some r -> j ∈ order ->
  Asyncio.futs (fold_left step order st) !! j = Some (Some r).
Proof.
  intros Hlen Hj. induction order as [|i order IH] using rev_ind; intros Hin.
  - inversion Hin.
  - rewrite fold_left_app. simpl.
    assert (Hj' : (j < length children)%nat) by (eapply lookup_lt_Some; eauto).
    destruct (decide (j = i)) as [->|Hne].
    + rewrite (complete_futs _ _ _ Hj). apply list_lookup_insert_eq.
      rewrite run_length. lia.
    + apply elem_of_app in Hin.
      destruct Hin as [Hp|Hl]; [|apply list_elem_of_singleton in Hl; congruence].
      destruct (children !! i) as [ri|] eqn:Hi.
      * rewrite (complete_futs _ _ _ Hi), list_lookup_insert_ne by congruence.
        now apply IH.
      * unfold step at 1, Asyncio.complete. rewrite Hi. now apply IH.
Qed.

(** While only successful children complete, and not yet all of them,
    the outer future stays pending. *)
Lemma run_pending order st :
  Asyncio.outer st = None ->
  (forall i, i ∈ order -> exists v, children !! i = Some (Ok v)) ->
  (Asyncio.nfinished st + length order < length children)%nat ->
  Asyncio.outer (fold_left step order st) = None
  /\ Asyncio.nfinished (fold_left step order st)
     = (Asyncio.nfinished st + length order)%nat.
Proof.
  revert st. induction order as [|i order IH]; intros st Ho Hok Hlt; simpl.
  - split; [exact Ho | lia].
  - destruct (Hok i) as [v Hi]; [apply elem_of_cons; now left|].
    simpl in Hlt.
    assert (Hst : Asyncio.outer (step st i) = None
                  /\ Asyncio.nfinished (step st i) = S (Asyncio.nfinished st)).
    { unfold step, Asyncio.complete. rewrite Hi.
      unfold Asyncio.done_callback. rewrite Ho.
      destruct (Nat.eqb_spec (S (Asyncio.nfinished st)) (length children));
        [lia | split; reflexivity]. }
    destruct Hst as [Ho' Hn'].
    destruct (IH (step st i)) as [Ho'' Hn'']; [assumption| |lia|].
    + intros k Hk. apply Hok. apply elem_of_cons. now right.
    + split; [assumption | lia].
Qed.

(** The completion of the last child, all having succeeded, resumes the
    outer future with the collected results. *)
Lemma complete_last st i v :
  Asyncio.outer st = None -> children !! i = Some (Ok v) ->
  S (Asyncio.nfinished st) = length children ->
  Asyncio.outer (step st i)
    = Ok <$> Asyncio.results_of (Asyncio.futs (step st i)).
Proof.
  intros Ho Hi Hn. unfold step, Asyncio.complete. rewrite Hi.
  unfold Asyncio.done_callback. rewrite Ho, Hn, Nat.eqb_refl. reflexivity.
Qed.

(** The completion of a failing child, the outer future still pending,
    resumes it with the child's exception. *)
Lemma complete_raise st i e :
  Asyncio.outer st = None -> children !! i = Some (Raise e) ->
  Asyncio.outer (step st i) = Some (Raise e).
Proof.
  intros Ho Hi. unfold step, Asyncio.complete. rewrite Hi.
  unfold Asyncio.done_callback. now rewrite Ho.
Qed.
End GatherFacts.

Lemma perm_seq_elem (order : list nat) (n i : nat) :
  Permutation order (seq 0 n) -> (i ∈ order <-> (i < n)%nat).
Proof.
  intros Hp. rewrite Hp, list_elem_of_In, in_seq. lia.
Qed.

Lemma perm_seq_length (order : list nat) (n : nat) :
  Permutation order (seq 0 n) -> length order = n.
Proof. intros Hp. now rewrite (Permutation_length Hp), length_seq. Qed.

Lemma gather_unfold {A : Type} (children : list (result A)) (order : list nat) :
  children <> [] ->
  Asyncio.gather children order
    = Asyncio.outer (fold_left (Asyncio.complete children) order
                       (Asyncio.start children)).
Proof. destruct children; [congruence | reflexivity]. Qed.

(** When every child succeeds, [gather] resumes with the values in the
    order of its arguments, whatever the order of completion. *)
Lemma gather_all_ok {A : Type} (vals : list A) (order : list nat) :
  Permutation order (seq 0 (length vals)) ->
  Asyncio.gather (Ok <$> vals) order = Some (Ok vals).
Proof.
  intros Hp. destruct (decide (vals = [])) as [->|Hne]; [reflexivity|].
  set (children := Ok <$> vals).
  assert (Hn : length children = length vals) by apply length_fmap.
  assert (Hchild : forall i v, vals !! i = Some v -> children !! i = Some (Ok v)).
  { intros i v Hi. unfold children. now rewrite list_lookup_fmap, Hi. }
  assert (Hin : forall i, i ∈ order -> exists v, vals !! i = Some v).
  { intros i Hi. apply lookup_lt_is_Some_2. now apply (perm_seq_elem _ _ i Hp). }
  rewrite gather_unfold by (unfold children; destruct vals; [congruence|discriminate]).
  pose proof (perm_seq_length _ _ Hp) as Hlen.
  assert (Hlast : exists p i, order = (p ++ [i])%list).
  { destruct order as [|i0 order0 _] using rev_ind; [|eauto].
    destruct vals; [congruence|discriminate]. }
  destruct Hlast as (p & i & Horder).
  assert (Hstart : length (Asyncio.futs (Asyncio.start children)) = length children)
    by apply length_replicate.
  assert (Hfuts : forall j v, vals !! j = Some v ->
            Asyncio.futs (fold_left (Asyncio.complete children) order
                            (Asyncio.start children)) !! j = Some (Some (Ok v))).
  { intros j v Hj. apply run_futs; [exact Hstart | now apply Hchild |].
    apply (perm_seq_elem _ _ j Hp). eapply lookup_lt_Some; eauto. }
  revert Hfuts. rewrite Horder in *. rewrite fold_left_app. simpl. intros Hfuts.
  rewrite length_app in Hlen. simpl in Hlen.
  destruct (run_pending children p (Asyncio.start children)) as [Hpend Hcount];
    [reflexivity| |simpl; lia|].
  { intros k Hk. destruct (Hin k) as [v Hv]; [apply elem_of_app; now left|].
    eauto. }
  destruct (Hin i) as [v Hv]; [apply elem_of_app; right; now apply list_elem_of_singleton|].
  rewrite (complete_last children _ i v Hpend (Hchild _ _ Hv))
    by (rewrite Hcount; simpl; lia).
  assert (Hres : Asyncio.results_of
            (Asyncio.futs
               (Asyncio.complete children
                  (fold_left (Asyncio.complete children) p (Asyncio.start children))
                  i)) = Some vals).
  { apply mapM_Some. apply Forall2_same_length_lookup. split.
    - rewrite complete_length, run_length. congruence.
    - intros j f w Hf Hw. rewrite (Hfuts j w Hw) in Hf. now injection Hf as <-. }
  now rewrite Hres.
Qed.

Lemma first_failure_split {A : Type} (children : list (result A)) (order : list nat) :
  (forall i, i ∈ order -> is_Some (children !! i)) ->
  (exists i e, i ∈ order /\ children !! i = Some (Raise e)) ->
  exists p j q e,
    order = (p ++ j :: q)%list /\ children !! j = Some (Raise e)
    /\ (forall k, k ∈ p -> exists v, children !! k = Some (Ok v)).
Proof.
  induction order as [|i order IH]; intros Hvalid (i0 & e0 & Hin & Hfail).
  - inversion Hin.
  - destruct (Hvalid i) as [[v|e] Hi]; [apply elem_of_cons; now left| |].
    + destruct IH as (p & j & q & e & -> & Hj & Hp).
      * intros k Hk. apply Hvalid. apply elem_of_cons. now right.
      * exists i0, e0. split; [|exact Hfail].
        apply elem_of_cons in Hin. destruct Hin as [->|Hin]; [congruence|exact Hin].
      * exists (i :: p), j, q, e. repeat split; [exact Hj|].
        intros k Hk. apply elem_of_cons in Hk. destruct Hk as [->|Hk]; eauto.
    + exists [], i, order, e. repeat split; [exact Hi|].
      intros k Hk. inversion Hk.
Qed.

(** When a child fails, [gather] resumes with the exception of the child
    that is the first to fail, in completion order. *)
Lemma gather_raises {A : Type} (children : list (result A)) (order : list nat) :
  Permutation order (seq 0 (length children)) ->
  (exists i e, children !! i = Some (Raise e)) ->
  exists p j q e,
    order = (p ++ j :: q)%list /\ children !! j = Some (Raise e)
    /\ (forall k, k ∈ p -> exists v, children !! k = Some (Ok v))
    /\ Asyncio.gather children order = Some (Raise e).
Proof.
  intros Hp (i0 & e0 & Hfail).
  destruct (first_failure_split children order) as (p & j & q & e & Ho & Hj & Hok).
  - intros i Hi. apply lookup_lt_is_Some_2. now apply (perm_seq_elem _ _ i Hp).
  - exists i0, e0. split; [|exact Hfail].
    apply (perm_seq_elem _ _ i0 Hp). eapply lookup_lt_Some; eauto.
  - exists p, j, q, e. repeat split; try assumption.
    rewrite gather_unfold by (intros ->; discriminate Hfail).
    pose proof (perm_seq_length _ _ Hp) as Hlen.
    rewrite Ho in *. rewrite length_app in Hlen. simpl in Hlen.
    rewrite fold_left_app. simpl.
    destruct (run_pending children p (Asyncio.start children)) as [Hpend _];
      [reflexivity | exact Hok | simpl; lia |].
    apply run_outer_done. now apply complete_raise.
Qed.

(** ** Properties of the orchestration *)

Lemma bind_Ok {A B : Type} (r : result A) (k : A -> result B) (b : B) :
  r ≫= k = Ok b -> exists a, r = Ok a /\ k a = Ok b.
Proof. destruct r as [a|e]; [eauto | discriminate]. Qed.

Lemma debt_loading_criterion cap cs :
  score_debt_loading cap = Ok cs ->
  criterion cs = "Debt Loading" /\ confidence cs = 0.75%float.
Proof.
  unfold score_debt_loading. intros H.
  apply bind_Ok in H as (nl & _ & H). apply bind_Ok in H as (fcf & _ & H).
  now injection H as <-.
Qed.

Lemma index_exclusion_criterion micro cs :
  score_index_exclusion micro = Ok cs ->
  criterion cs = "Index Exclusion" /\ confidence cs = 0.70%float.
Proof.
  unfold score_index_exclusion. intros H.
  apply bind_Ok in H as (russ & _ & H). apply bind_Ok in H as (adv & _ & H).
  destruct (index_exclusion_table russ adv). now injection H as <-.
Qed.

Lemma equity_incentives_criterion own cs :
  score_equity_incentives own = Ok cs ->
  criterion cs = "Equity Incentives" /\ confidence cs = 0.80%float.
Proof.
  unfold score_equity_incentives. intros H.
  apply bind_Ok in H as (pct & _ & H). apply bind_Ok in H as (perf & _ & H).
  now injection H as <-.
Qed.

(** On the scores of a run the mean is always defined: the weights depend
    on the criterion and its fixed confidence only, and add up to about
    3.5075. *)
Lemma pipeline_composite_is_weighted_mean cap micro own s1 s2 s3 :
  score_debt_loading cap = Ok s1 ->
  score_index_exclusion micro = Ok s2 ->
  score_equity_incentives own = Ok s3 ->
  weight_total [s1; s2; s3] = 0x1.c0f5c28f5c28fp+1%float
  /\ compose [s1; s2; s3]
     = Ok ((weighted_total [s1; s2; s3] / weight_total [s1; s2; s3])%float,
           [s1; s2; s3]).
Proof.
  intros H1 H2 H3.
  destruct (debt_loading_criterion _ _ H1) as [N1 C1].
  destruct (index_exclusion_criterion _ _ H2) as [N2 C2].
  destruct (equity_incentives_criterion _ _ H3) as [N3 C3].
  assert (Hw : weight_total [s1; s2; s3] = 0x1.c0f5c28f5c28fp+1%float).
  { unfold weight_total, effective_weight. simpl.
    rewrite N1, N2, N3, C1, C2, C3. vm_compute. reflexivity. }
  split; [exact Hw|].
  unfold compose. rewrite compose_loop.
  fold (weighted_total [s1; s2; s3]). fold (weight_total [s1; s2; s3]).
  rewrite Hw. reflexivity.
Qed.

(** C9: the CriterionScores of the final result are in the declaration
    order of the scorers (Debt Loading, Index Exclusion, Equity
    Incentives), whatever the order in which the providers and the
    scoring tasks complete. *)
Theorem run_scores_in_declaration_order (hubs : Hubs) (sched : Schedule)
    (subject : string) (cf : CaseFile) (cap own micro ops : FeatureSet)
    (s1 s2 s3 : CriterionScore) :
  Permutation (hubs_order sched) (seq 0 4) ->
  Permutation (scorers_order sched) (seq 0 3) ->
  fetch_and_normalize subject = Ok cf ->
  providers hubs cf = [Ok cap; Ok own; Ok micro; Ok ops] ->
  score_debt_loading cap = Ok s1 ->
  score_index_exclusion micro = Ok s2 ->
  score_equity_incentives own = Ok s3 ->
  exists rep,
    run_with hubs sched subject = Some (Ok rep)
    /\ scores rep = [s1; s2; s3]
    /\ map criterion (scores rep) = criteria.
Proof.
  intros Hhubs Hscorers Hcf Hprov H1 H2 H3.
  destruct (compose_total [s1; s2; s3]) as [c Hc].
  exists {| composite := c; scores := [s1; s2; s3];
            grid := grid_rows cf [s1; s2; s3] |}.
  split; [|split].
  - unfold run_with. rewrite Hcf. unfold Asyncio.now, Asyncio.await at 1.
    rewrite Hprov.
    change [Ok cap; Ok own; Ok micro; Ok ops]
      with (Ok <$> [cap; own; micro; ops] : list (result FeatureSet)).
    rewrite (gather_all_ok [cap; own; micro; ops] _ Hhubs).
    unfold Asyncio.await at 1. rewrite H1, H2, H3.
    change [Ok s1; Ok s2; Ok s3]
      with (Ok <$> [s1; s2; s3] : list (result CriterionScore)).
    rewrite (gather_all_ok [s1; s2; s3] _ Hscorers).
    unfold Asyncio.await. now rewrite Hc.
  - reflexivity.
  - simpl. rewrite (proj1 (debt_loading_criterion _ _ H1)),
      (proj1 (index_exclusion_criterion _ _ H2)),
      (proj1 (equity_incentives_criterion _ _ H3)).
    reflexivity.
Qed.

Lemma run_scores_in_declaration_order_witness :
  exists rep,
    run demo_schedule "Example SpinCo" = Some (Ok rep)
    /\ scores rep = demo_scores
    /\ map criterion (scores rep) = criteria.
Proof.
  eapply (run_scores_in_declaration_order demo_hubs demo_schedule).
  - apply (bool_decide_unpack _). vm_compute. exact I.
  - apply (bool_decide_unpack _). vm_compute. exact I.
  - reflexivity.
  - reflexivity.
  - vm_compute. reflexivity.
  - vm_compute. reflexivity.
  - vm_compute. reflexivity.
Defined.

(** The composite of the demo run, to the last bit; another schedule
    gives the same report. *)
Example demo_run_composite :
  (exists rep, run demo_schedule "Example SpinCo" = Some (Ok rep)
               /\ composite rep = 0x1.129c8e52d6f1fp+2%float)
  /\ run {| hubs_order := [0; 1; 2; 3]%nat; scorers_order := [0; 1; 2]%nat |}
        "Example SpinCo"
      = run demo_schedule "Example SpinCo".
Proof.
  split; [eexists; split|]; vm_compute; reflexivity.
Qed.



(** With two failing providers the exception is that of the one that
    completes first, not that of the first in the order of the call; the
    future of the other failing provider still receives its own
    exception. *)
Example provider_failure_by_completion_order :
  run_with two_down demo_schedule "Example SpinCo" = Some (Raise TimeoutError)
  /\ run_with two_down
       {| hubs_order := [0; 1; 2; 3]%nat; scorers_order := [0; 1; 2]%nat |}
       "Example SpinCo" = Some (Raise ValueError)
  /\ provider_futures two_down demo_schedule
       {| company := "Example SpinCo"; ticker := "TBD";
          announcement_date := Some "2025-07-15" |} !! 0%nat
     = Some (Some (Raise ValueError)).
Proof. repeat split; vm_compute; reflexivity. Qed.


(** ** Further properties of the scoring rules *)

Lemma SFleb_ltb_trans (x y z : spec_float) :
  SFleb x y = true -> SFltb y z = true -> SFltb x z = true.
Proof.
  unfold SFleb, SFltb, SFcompare.
  destruct x as [sx|sx| |sx mx ex], y as [sy|sy| |sy my ey],
    z as [sz|sz| |sz mz ez];
    try destruct sx; try destruct sy; try destruct sz;
    try discriminate; try reflexivity;
    change (Pos.compare_cont Eq) with Pos.compare;
    repeat match goal with
           | |- context [Z.compare ?a ?b] => destruct (Z.compare_spec a b)
           | |- context [Pos.compare ?a ?b] => destruct (Pos.compare_spec a b)
           end;
    simpl; try discriminate; try reflexivity; intros; exfalso; lia.
Qed.

Lemma leb_ltb_trans (x y z : float) :
  (x <=? y)%float = true -> (y <? z)%float = true -> (x <? z)%float = true.
Proof. rewrite FloatAxioms.leb_spec, !FloatAxioms.ltb_spec. apply SFleb_ltb_trans. Qed.

Lemma of_int_score_leb (a b : Z) :
  1 <= a <= 5 -> 1 <= b <= 5 ->
  ((Py.of_int a <=? Py.of_int b)%float = true <-> a <= b).
Proof.
  intros Ha Hb.
  assert (Ea : a = 1 \/ a = 2 \/ a = 3 \/ a = 4 \/ a = 5) by lia.
  assert (Eb : b = 1 \/ b = 2 \/ b = 3 \/ b = 4 \/ b = 5) by lia.
  destruct Ea as [-> | [-> | [-> | [-> | ->]]]];
    destruct Eb as [-> | [-> | [-> | [-> | ->]]]];
    vm_compute; split; intros H; try reflexivity; try discriminate;
    try (exfalso; apply H; reflexivity).
Qed.

Lemma of_int_score_inj (a b : Z) :
  1 <= a <= 5 -> 1 <= b <= 5 -> Py.of_int a = Py.of_int b -> a = b.
Proof.
  intros Ha Hb Hab.
  assert (H1 : (Py.of_int a <=? Py.of_int b)%float = true).
  { rewrite Hab. apply of_int_score_leb; lia. }
  assert (H2 : (Py.of_int b <=? Py.of_int a)%float = true).
  { rewrite Hab. apply of_int_score_leb; lia. }
  apply of_int_score_leb in H1; [|lia|lia].
  apply of_int_score_leb in H2; [|lia|lia]. lia.
Qed.

(** The three scorers in terms of their tables. *)
Lemma score_debt_loading_table (cap : FeatureSet) (nl fcf : float) :
  net_leverage_turns cap = Ok nl -> fcf_to_net_debt_pct cap = Ok fcf ->
  exists cs, score_debt_loading cap = Ok cs
             /\ score cs = Py.of_int (debt_loading_base nl fcf).
Proof.
  unfold net_leverage_turns, fcf_to_net_debt_pct. intros Hnl Hfcf.
  unfold score_debt_loading. rewrite Hnl, Hfcf. eexists. split; reflexivity.
Qed.

Lemma score_index_exclusion_table (micro : FeatureSet) (russ : Z) (adv : float) :
  russell_eligible micro = Ok russ -> avg_daily_dollar_volume micro = Ok adv ->
  score_index_exclusion micro =
    Ok {| criterion := "Index Exclusion";
          score := Py.of_int (fst (index_exclusion_table russ adv));
          confidence := 0.70;
          rationale := snd (index_exclusion_table russ adv);
          evidence_ids := [] |}.
Proof.
  unfold russell_eligible, avg_daily_dollar_volume. intros Hr Ha.
  unfold score_index_exclusion. rewrite Hr, Ha.
  cbv beta iota delta [mbind result_bind].
  destruct (index_exclusion_table russ adv). reflexivity.
Qed.

Lemma score_equity_incentives_table (own : FeatureSet) (pct : float) (perf : Z) :
  mgmt_ownership_pct own = Ok pct -> perf_equity_present own = Ok perf ->
  exists cs, score_equity_incentives own = Ok cs
             /\ score cs = Py.of_int (equity_incentives_table pct perf).
Proof.
  unfold mgmt_ownership_pct, perf_equity_present. intros Hp Hf.
  unfold score_equity_incentives. rewrite Hp, Hf. eexists. split; reflexivity.
Qed.

Lemma equity_incentives_table_range (pct : float) (perf : Z) :
  2 <= equity_incentives_table pct perf <= 5.
Proof.
  unfold equity_incentives_table.
  destruct (3 <=? pct)%float, (1 <=? pct)%float, (perf =? 0); simpl; lia.
Qed.

Lemma equity_incentives_table_monotone (pct pct' : float) (perf : Z) :
  (pct <=? pct')%float = true ->
  equity_incentives_table pct perf <= equity_incentives_table pct' perf.
Proof.
  intros Hle. unfold equity_incentives_table.
  destruct (3 <=? pct)%float eqn:H3.
  { rewrite (leb_trans _ _ _ H3 Hle).
    assert (H1 : (1 <=? pct)%float = true)
      by (apply (leb_trans _ 3%float); [reflexivity | exact H3]).
    rewrite H1, (leb_trans _ _ _ H1 Hle). destruct (perf =? 0); simpl; lia. }
  destruct (1 <=? pct)%float eqn:H1.
  { rewrite (leb_trans _ _ _ H1 Hle).
    destruct (3 <=? pct')%float, (perf =? 0); simpl; lia. }
  destruct (3 <=? pct')%float, (1 <=? pct')%float, (perf =? 0); simpl; lia.
Qed.

(** X1. The Equity Incentives score lies between 2 and 5 and, for a fixed
    performance-equity flag, never decreases when management ownership
    grows. *)
Theorem equity_incentives_range_and_monotone (own own' : FeatureSet)
    (pct pct' : float) (perf : Z) :
  mgmt_ownership_pct own = Ok pct -> perf_equity_present own = Ok perf ->
  mgmt_ownership_pct own' = Ok pct' -> perf_equity_present own' = Ok perf ->
  exists cs cs',
    score_equity_incentives own = Ok cs /\ score_equity_incentives own' = Ok cs'
    /\ (2 <=? score cs)%float = true /\ (score cs <=? 5)%float = true
    /\ ((pct <=? pct')%float = true -> (score cs <=? score cs')%float = true).
Proof.
  intros Hp Hf Hp' Hf'.
  destruct (score_equity_incentives_table own pct perf Hp Hf) as (cs & Hcs & Es).
  destruct (score_equity_incentives_table own' pct' perf Hp' Hf') as (cs' & Hcs' & Es').
  pose proof (equity_incentives_table_range pct perf) as R.
  pose proof (equity_incentives_table_range pct' perf) as R'.
  exists cs, cs'. rewrite Es, Es'. repeat split; try assumption.
  - apply (of_int_score_leb 2); lia.
  - apply (of_int_score_leb _ 5); lia.
  - intros Hle. apply of_int_score_leb; try lia.
    now apply equity_incentives_table_monotone.
Qed.

Lemma equity_incentives_range_and_monotone_witness :
  exists cs cs',
    score_equity_incentives demo_ownership = Ok cs
    /\ score_equity_incentives (with_feature "mgmt_ownership_pct" (VFloat 3.5)
                                  demo_ownership) = Ok cs'
    /\ (score cs <=? score cs')%float = true.
Proof.
  destruct (equity_incentives_range_and_monotone demo_ownership
              (with_feature "mgmt_ownership_pct" (VFloat 3.5) demo_ownership)
              2.1 3.5 1)
    as (cs & cs' & Hcs & Hcs' & _ & _ & Hmono); try (vm_compute; reflexivity).
  exists cs, cs'. repeat split; try assumption.
  apply Hmono. vm_compute. reflexivity.
Defined.

(** X2. Performance-linked equity never lowers the Equity Incentives
    score: without it the score is 2 or 3, with it (any non-zero flag) the
    score is one more or two more once ownership reaches 1%, and below 1%
    ownership the score is 2 either way. *)
Theorem equity_incentives_performance_effect (own own' : FeatureSet)
    (pct : float) (perf' : Z) :
  mgmt_ownership_pct own = Ok pct -> perf_equity_present own = Ok 0 ->
  mgmt_ownership_pct own' = Ok pct -> perf_equity_present own' = Ok perf' ->
  perf' <> 0 ->
  exists cs cs',
    score_equity_incentives own = Ok cs /\ score_equity_incentives own' = Ok cs'
    /\ (score cs <=? 3)%float = true
    /\ (score cs <=? score cs')%float = true
    /\ ((1 <=? pct)%float = true ->
        score cs = 3%float /\ (score cs <? score cs')%float = true)
    /\ ((1 <=? pct)%float = false ->
        score cs = 2%float /\ score cs' = 2%float).
Proof.
  intros Hp Hf Hp' Hf' Hperf.
  destruct (score_equity_incentives_table own pct 0 Hp Hf) as (cs & Hcs & Es).
  destruct (score_equity_incentives_table own' pct perf' Hp' Hf') as (cs' & Hcs' & Es').
  exists cs, cs'. rewrite Es, Es'. split; [exact Hcs|]. split; [exact Hcs'|].
  unfold equity_incentives_table.
  apply Z.eqb_neq in Hperf. rewrite Hperf. simpl negb.
  destruct (3 <=? pct)%float eqn:H3.
  - assert (H1 : (1 <=? pct)%float = true)
      by (apply (leb_trans _ 3%float); [reflexivity | exact H3]).
    rewrite H1. simpl. repeat split; try reflexivity; discriminate.
  - destruct (1 <=? pct)%float; simpl; repeat split; try reflexivity;
      discriminate.
Qed.

Lemma equity_incentives_performance_effect_witness :
  exists cs cs',
    score_equity_incentives
      (with_feature "perf_equity_present" (VInt 0) demo_ownership) = Ok cs
    /\ score_equity_incentives demo_ownership = Ok cs'
    /\ score cs = 3%float /\ (score cs <? score cs')%float = true.
Proof.
  destruct (equity_incentives_performance_effect
              (with_feature "perf_equity_present" (VInt 0) demo_ownership)
              demo_ownership 2.1 1)
    as (cs & cs' & Hcs & Hcs' & _ & _ & Hup & _);
    try (vm_compute; reflexivity); [discriminate|].
  exists cs, cs'. split; [exact Hcs|]. split; [exact Hcs'|].
  apply Hup. vm_compute. reflexivity.
Defined.

Lemma index_exclusion_table_cases (russ : Z) (adv : float) :
  index_exclusion_table russ adv =
    (5, "Likely excluded from major indices at spin; thin ADV increases forced selling risk.")
  \/ index_exclusion_table russ adv
     = (4, "Likely excluded; liquidity somewhat offsets.")
  \/ index_exclusion_table russ adv
     = (2, "Index eligible; less forced selling.").
Proof.
  unfold index_exclusion_table.
  destruct (russ =? 0), (adv <? 15000000)%float; simpl; tauto.
Qed.

Lemma index_exclusion_table_volume (russ : Z) (adv adv' : float) :
  (adv <=? adv')%float = true ->
  fst (index_exclusion_table russ adv') <= fst (index_exclusion_table russ adv).
Proof.
  intros Hle. unfold index_exclusion_table.
  destruct (russ =? 0); simpl; [|lia].
  destruct (adv' <? 15000000)%float eqn:H'.
  - rewrite (leb_ltb_trans _ _ _ Hle H'). simpl. lia.
  - destruct (adv <? 15000000)%float; simpl; lia.
Qed.

(** X3. The Index Exclusion score is 2, 4 or 5. An index-eligible company
    (any non-zero flag) scores 2 whatever its volume; for a fixed flag a
    larger average daily dollar volume never raises the score. *)
Theorem index_exclusion_levels_and_volume (micro micro' : FeatureSet)
    (russ : Z) (adv adv' : float) :
  russell_eligible micro = Ok russ -> avg_daily_dollar_volume micro = Ok adv ->
  russell_eligible micro' = Ok russ -> avg_daily_dollar_volume micro' = Ok adv' ->
  exists cs cs',
    score_index_exclusion micro = Ok cs /\ score_index_exclusion micro' = Ok cs'
    /\ (score cs = 2%float \/ score cs = 4%float \/ score cs = 5%float)
    /\ (russ <> 0 -> score cs = 2%float /\ cs = cs')
    /\ (russ = 0 -> score cs <> 2%float)
    /\ ((adv <=? adv')%float = true -> (score cs' <=? score cs)%float = true).
Proof.
  intros Hr Ha Hr' Ha'.
  rewrite (score_index_exclusion_table micro russ adv Hr Ha).
  rewrite (score_index_exclusion_table micro' russ adv' Hr' Ha').
  eexists _, _. split; [reflexivity|]. split; [reflexivity|]. simpl score.
  split; [|split; [|split]].
  - destruct (index_exclusion_table_cases russ adv) as [-> | [-> | ->]];
      simpl; tauto.
  - intros Hne. apply Z.eqb_neq in Hne. unfold index_exclusion_table.
    rewrite Hne. simpl. split; reflexivity.
  - intros ->. unfold index_exclusion_table. simpl.
    destruct (adv <? 15000000)%float; simpl; apply float_neq; reflexivity.
  - intros Hle. pose proof (index_exclusion_table_volume russ adv adv' Hle) as H.
    destruct (index_exclusion_table_cases russ adv) as [E | [E | E]];
      destruct (index_exclusion_table_cases russ adv') as [E' | [E' | E']];
      rewrite E, E' in *; simpl in *; try lia; reflexivity.
Qed.

Lemma index_exclusion_levels_and_volume_witness :
  exists cs cs',
    score_index_exclusion demo_microstructure = Ok cs
    /\ score_index_exclusion
         (with_feature "avg_daily_dollar_volume" (VInt 20000000)
            demo_microstructure) = Ok cs'
    /\ (score cs' <=? score cs)%float = true.
Proof.
  destruct (index_exclusion_levels_and_volume demo_microstructure
              (with_feature "avg_daily_dollar_volume" (VInt 20000000)
                 demo_microstructure) 0 12000000 20000000)
    as (cs & cs' & Hcs & Hcs' & _ & _ & _ & Hvol);
    try (vm_compute; reflexivity).
  exists cs, cs'. repeat split; try assumption.
  apply Hvol. vm_compute. reflexivity.
Defined.

(** X4. The Index Exclusion rationale is one of three fixed sentences, one
    per score level: two results carry the same rationale exactly when
    they carry the same score, and then they are the same CriterionScore. *)
Theorem index_exclusion_rationale_by_score (micro micro' : FeatureSet)
    (cs cs' : CriterionScore) :
  score_index_exclusion micro = Ok cs ->
  score_index_exclusion micro' = Ok cs' ->
  (score cs = score cs' <-> rationale cs = rationale cs')
  /\ (score cs = score cs' -> cs = cs').
Proof.
  unfold score_index_exclusion. intros H H'.
  apply bind_Ok in H as (russ & _ & H). apply bind_Ok in H as (adv & _ & H).
  apply bind_Ok in H' as (russ' & _ & H'). apply bind_Ok in H' as (adv' & _ & H').
  destruct (index_exclusion_table_cases russ adv) as [E | [E | E]];
    destruct (index_exclusion_table_cases russ' adv') as [E' | [E' | E']];
    rewrite E in H; rewrite E' in H'; injection H as <-; injection H' as <-;
    simpl; (split; [split|]); intros Heq; try reflexivity; try discriminate;
    exfalso; revert Heq; apply float_neq; reflexivity.
Qed.

Lemma index_exclusion_rationale_by_score_witness :
  exists cs cs',
    score_index_exclusion demo_microstructure = Ok cs
    /\ score_index_exclusion unlisted_microstructure = Ok cs'
    /\ (score cs = score cs' <-> rationale cs = rationale cs').
Proof.
  eexists _, _. split; [vm_compute; reflexivity|].
  split; [vm_compute; reflexivity|].
  eapply (index_exclusion_rationale_by_score demo_microstructure
            unlisted_microstructure); vm_compute; reflexivity.
Defined.

Lemma leb_1_5_3 (nl : float) :
  (nl <=? 1.5)%float = true -> (nl <=? 3.0)%float = true.
Proof. intros H. apply (leb_trans _ 1.5%float); [exact H | reflexivity]. Qed.

Lemma debt_loading_base_ratio (nl fcf fcf' : float) :
  (fcf <=? fcf')%float = true ->
  debt_loading_base nl fcf <= debt_loading_base nl fcf'.
Proof.
  intros Hle. unfold debt_loading_base.
  destruct (nl <=? 1.5)%float; [lia|]. destruct (nl <=? 3.0)%float; [lia|].
  destruct (30 <=? fcf)%float eqn:H30.
  { rewrite (leb_trans _ _ _ H30 Hle). lia. }
  destruct (20 <=? fcf)%float eqn:H20.
  { rewrite (leb_trans _ _ _ H20 Hle). destruct (30 <=? fcf')%float; lia. }
  destruct (20 <=? fcf')%float, (30 <=? fcf')%float; lia.
Qed.

Lemma debt_loading_base_5 (nl fcf : float) :
  debt_loading_base nl fcf = 5
  <-> (nl <=? 3.0)%float = false /\ (30 <=? fcf)%float = true.
Proof.
  unfold debt_loading_base.
  destruct (nl <=? 1.5)%float eqn:H1.
  { rewrite (leb_1_5_3 nl H1). split; [lia | intros [? _]; discriminate]. }
  destruct (nl <=? 3.0)%float; [split; [lia | intros [? _]; discriminate]|].
  destruct (20 <=? fcf)%float, (30 <=? fcf)%float; split; try lia; try tauto;
    intros [_ ?]; discriminate.
Qed.

Lemma debt_loading_base_not_2 (nl fcf : float) : debt_loading_base nl fcf <> 2.
Proof.
  unfold debt_loading_base.
  destruct (nl <=? 1.5)%float, (nl <=? 3.0)%float, (20 <=? fcf)%float,
    (30 <=? fcf)%float; lia.
Qed.

(** X5. The FCF-to-net-debt ratio matters to the Debt Loading score only
    above 3.0 turns of leverage: up to 3.0 turns the score is the same for
    every ratio. At any leverage a larger ratio never lowers the score.
    The score is 5 exactly when leverage is not within 3.0 turns and the
    ratio is at least 30, and it is never 2. *)
Theorem debt_loading_ratio_effect (cap cap' : FeatureSet) (nl fcf fcf' : float) :
  net_leverage_turns cap = Ok nl -> fcf_to_net_debt_pct cap = Ok fcf ->
  net_leverage_turns cap' = Ok nl -> fcf_to_net_debt_pct cap' = Ok fcf' ->
  exists cs cs',
    score_debt_loading cap = Ok cs /\ score_debt_loading cap' = Ok cs'
    /\ ((nl <=? 3.0)%float = true -> score cs = score cs')
    /\ ((fcf <=? fcf')%float = true -> (score cs <=? score cs')%float = true)
    /\ (score cs = 5%float
        <-> (nl <=? 3.0)%float = false /\ (30 <=? fcf)%float = true)
    /\ score cs <> 2%float.
Proof.
  intros Hnl Hfcf Hnl' Hfcf'.
  destruct (score_debt_loading_table cap nl fcf Hnl Hfcf) as (cs & Hcs & Es).
  destruct (score_debt_loading_table cap' nl fcf' Hnl' Hfcf') as (cs' & Hcs' & Es').
  pose proof (debt_loading_base_range nl fcf) as R.
  pose proof (debt_loading_base_range nl fcf') as R'.
  exists cs, cs'. rewrite Es, Es'. split; [exact Hcs|]. split; [exact Hcs'|].
  split; [|split; [|split]].
  - intros H3. unfold debt_loading_base. rewrite H3.
    destruct (nl <=? 1.5)%float; reflexivity.
  - intros Hle. apply of_int_score_leb; try lia.
    now apply debt_loading_base_ratio.
  - rewrite <- debt_loading_base_5. split.
    + intros H. apply (of_int_score_inj _ 5) in H; lia.
    + intros ->. reflexivity.
  - intros H. apply (of_int_score_inj _ 2) in H; [|lia|lia].
    now apply debt_loading_base_not_2 in H.
Qed.

Lemma debt_loading_ratio_effect_witness :
  exists cs cs',
    score_debt_loading demo_capital_structure = Ok cs
    /\ score_debt_loading
         (with_feature "fcf_to_net_debt_pct" (VInt 35) demo_capital_structure)
       = Ok cs'
    /\ (score cs <=? score cs')%float = true
    /\ score cs <> 5%float /\ score cs <> 2%float.
Proof.
  destruct (debt_loading_ratio_effect demo_capital_structure
              (with_feature "fcf_to_net_debt_pct" (VInt 35)
                 demo_capital_structure) 3.2 22 35)
    as (cs & cs' & Hcs & Hcs' & _ & Hmono & H5 & H2);
    try (vm_compute; reflexivity).
  exists cs, cs'. repeat split; try assumption.
  - apply Hmono. vm_compute. reflexivity.
  - intros H. apply H5 in H. destruct H as [_ H]. vm_compute in H. discriminate.
Defined.

Lemma two_conversions_raise {A B C : Type} (r1 : result A) (r2 : result B)
    (k : A -> B -> result C) (e : exn) :
  (forall a b, succeeds (k a b)) ->
  ((a ← r1; b ← r2; k a b) = Raise e
   <-> r1 = Raise e \/ (succeeds r1 /\ r2 = Raise e)).
Proof.
  intros Hk. destruct r1 as [a|e1], r2 as [b|e2]; simpl; split;
    try (intros [H | [[a' Ha] H]]; congruence).
  - intros H. destruct (Hk a b) as [c Hc]. congruence.
  - intros H. right. split; [now exists a | congruence].
  - intros H. left. congruence.
  - intros H. left. congruence.
Qed.

(** X6. Both features of a scorer are converted before any band or table
    is consulted, in source order: a scorer raises exactly the exception
    of its first conversion that fails, even when the failing feature
    could not have changed the score. *)
Theorem scorers_raise_first_conversion_error (fs : FeatureSet) (e : exn) :
  (score_debt_loading fs = Raise e <->
     net_leverage_turns fs = Raise e
     \/ (succeeds (net_leverage_turns fs) /\ fcf_to_net_debt_pct fs = Raise e))
  /\ (score_index_exclusion fs = Raise e <->
        russell_eligible fs = Raise e
        \/ (succeeds (russell_eligible fs)
            /\ avg_daily_dollar_volume fs = Raise e))
  /\ (score_equity_incentives fs = Raise e <->
        mgmt_ownership_pct fs = Raise e
        \/ (succeeds (mgmt_ownership_pct fs) /\ perf_equity_present fs = Raise e)).
Proof.
  split; [|split].
  - apply two_conversions_raise. intros nl fcf. eexists. reflexivity.
  - apply two_conversions_raise. intros russ adv.
    destruct (index_exclusion_table russ adv). eexists. reflexivity.
  - apply two_conversions_raise. intros pct perf. eexists. reflexivity.
Qed.

(** A low leverage does not save a run from a ratio that is text. *)
Example debt_loading_raises_on_unused_ratio :
  score_debt_loading
    {| domain := "capital_structure";
       features := {[ "net_leverage_turns" := VFloat 1.0;
                      "fcf_to_net_debt_pct" := VStr "n/a" ]};
       provenance := [] |} = Raise ValueError.
Proof. vm_compute. reflexivity. Qed.

(** X7. A scorer looks at its own two features only: setting any other
    feature of the FeatureSet, to any value, leaves its result unchanged. *)
Theorem scorers_ignore_other_features (fs : FeatureSet) (k : string) (v : value) :
  (k <> "net_leverage_turns" -> k <> "fcf_to_net_debt_pct" ->
   score_debt_loading (with_feature k v fs) = score_debt_loading fs)
  /\ (k <> "russell_eligible" -> k <> "avg_daily_dollar_volume" ->
      score_index_exclusion (with_feature k v fs) = score_index_exclusion fs)
  /\ (k <> "mgmt_ownership_pct" -> k <> "perf_equity_present" ->
      score_equity_incentives (with_feature k v fs) = score_equity_incentives fs).
Proof.
  split; [|split]; intros H1 H2.
  - apply debt_loading_reads; unfold with_feature, Py.get; simpl features;
      now rewrite lookup_insert_ne.
  - apply index_exclusion_reads; unfold with_feature, Py.get; simpl features;
      now rewrite lookup_insert_ne.
  - apply equity_incentives_reads; unfold with_feature, Py.get; simpl features;
      now rewrite lookup_insert_ne.
Qed.

Lemma scorers_ignore_other_features_witness :
  score_debt_loading
    (with_feature "special_dividend_flag" (VBool true) demo_capital_structure)
  = score_debt_loading demo_capital_structure.
Proof.
  apply (scorers_ignore_other_features demo_capital_structure
           "special_dividend_flag" (VBool true)); discriminate.
Defined.

(** X8. On a FeatureSet that has neither of the features a scorer reads,
    the scorer returns its lowest score: Debt Loading 1, Index Exclusion 2,
    Equity Incentives 2, with the rationale of zero leverage, of an
    eligible company and of no ownership. *)
Theorem scorers_on_missing_features (fs : FeatureSet) :
  (features fs !! "net_leverage_turns" = None ->
   features fs !! "fcf_to_net_debt_pct" = None ->
   score_debt_loading fs =
     Ok {| criterion := "Debt Loading"; score := 1; confidence := 0.75;
           rationale :=
             "Net leverage 0.0x; FCF/NetDebt approx 0% -> deleveraging plausible.";
           evidence_ids := [] |})
  /\ (features fs !! "russell_eligible" = None ->
      features fs !! "avg_daily_dollar_volume" = None ->
      score_index_exclusion fs =
        Ok {| criterion := "Index Exclusion"; score := 2; confidence := 0.70;
              rationale := "Index eligible; less forced selling.";
              evidence_ids := [] |})
  /\ (features fs !! "mgmt_ownership_pct" = None ->
      features fs !! "perf_equity_present" = None ->
      score_equity_incentives fs =
        Ok {| criterion := "Equity Incentives"; score := 2; confidence := 0.80;
              rationale := "Mgmt owns approx 0.0% without performance equity.";
              evidence_ids := [] |}).
Proof.
  split; [|split]; intros H1 H2.
  - unfold score_debt_loading. rewrite !get_absent by assumption.
    vm_compute. reflexivity.
  - unfold score_index_exclusion. rewrite !get_absent by assumption.
    vm_compute. reflexivity.
  - unfold score_equity_incentives. rewrite !get_absent by assumption.
    vm_compute. reflexivity.
Qed.

Lemma scorers_on_missing_features_witness :
  score_index_exclusion demo_capital_structure =
    Ok {| criterion := "Index Exclusion"; score := 2; confidence := 0.70;
          rationale := "Index eligible; less forced selling.";
          evidence_ids := [] |}.
Proof.
  apply (scorers_on_missing_features demo_capital_structure);
    vm_compute; reflexivity.
Defined.

(** *** Truncation of fractional flags *)

Lemma valid_digits (s : bool) (m : positive) (e : Z) :
  SpecFloat.valid_binary prec emax (S754_finite s m e) = true ->
  Zdigits2 (Zpos m) <= 53.
Proof.
  unfold SpecFloat.valid_binary, bounded, canonical_mantissa, fexp, SpecFloat.emin,
    prec, emax.
  intros H. apply andb_prop in H as [H _]. apply Z.eqb_eq in H.
  change (Z.pos (digits2_pos m)) with (Zdigits2 (Zpos m)) in H. lia.
Qed.

Lemma digits_bound (m : positive) (d : Z) :
  Zdigits2 (Zpos m) <= d -> Zpos m < 2 ^ d.
Proof.
  intros H. rewrite Zdigits2_log2 in H by lia.
  apply Z.log2_lt_pow2; lia.
Qed.

Lemma shiftr_small (m : positive) (n : Z) :
  0 <= n -> Zpos m < 2 ^ n -> Z.shiftr (Zpos m) n = 0.
Proof.
  intros Hn Hm. rewrite Z.shiftr_div_pow2 by lia. apply Z.div_small. lia.
Qed.

Lemma small_mantissa_truncates (m : positive) (e : Z) :
  Zdigits2 (Zpos m) <= 53 ->
  e < -52 \/ (e = -52 /\ (m < 4503599627370496)%positive) ->
  (if 0 <=? e then Z.shiftl (Zpos m) e else Z.shiftr (Zpos m) (- e)) = 0.
Proof.
  intros Hd He.
  assert (Hneg : e < 0) by (destruct He as [He | [He _]]; lia).
  destruct (Z.leb_spec 0 e) as [H0|H0]; [exfalso; clear - Hneg H0; lia|].
  apply shiftr_small; [clear - Hneg; lia|]. destruct He as [He | [-> Hm]].
  - apply Z.lt_le_trans with (2 ^ 53); [now apply digits_bound|].
    apply Z.pow_le_mono_r; clear - He; lia.
  - change (2 ^ (- -52)) with 4503599627370496.
    apply Pos2Z.pos_lt_pos. exact Hm.
Qed.

Lemma Prim2SF_minus_one :
  Prim2SF (-1) = S754_finite true 4503599627370496 (-52).
Proof. vm_compute. reflexivity. Qed.

Lemma Prim2SF_one : Prim2SF 1 = S754_finite false 4503599627370496 (-52).
Proof. vm_compute. reflexivity. Qed.

Lemma SFltb_negative (m1 m2 : positive) (e1 e2 : Z) :
  SFltb (S754_finite true m1 e1) (S754_finite true m2 e2) = true ->
  e2 < e1 \/ (e2 = e1 /\ (m2 < m1)%positive).
Proof.
  unfold SFltb, SFcompare. change (Pos.compare_cont Eq) with Pos.compare.
  destruct (Z.compare_spec e1 e2) as [He|He|He];
    [|intros; discriminate|intros _; left; exact He].
  destruct (Pos.compare_spec m1 m2) as [Hm|Hm|Hm];
    [intros; discriminate|intros; discriminate|].
  intros _. right. split; [symmetry; exact He | exact Hm].
Qed.

Lemma SFltb_positive (m1 m2 : positive) (e1 e2 : Z) :
  SFltb (S754_finite false m1 e1) (S754_finite false m2 e2) = true ->
  e1 < e2 \/ (e1 = e2 /\ (m1 < m2)%positive).
Proof.
  unfold SFltb, SFcompare. change (Pos.compare_cont Eq) with Pos.compare.
  destruct (Z.compare_spec e1 e2) as [He|He|He];
    [|intros _; left; exact He|intros; discriminate].
  destruct (Pos.compare_spec m1 m2) as [Hm|Hm|Hm];
    [intros; discriminate| |intros; discriminate].
  intros _. right. split; [exact He | exact Hm].
Qed.

Lemma SF_fraction_mantissa (s : bool) (m : positive) (e : Z) :
  SFltb SF_minus_one (S754_finite s m e) = true ->
  SFltb (S754_finite s m e) SF_one = true ->
  e < -52 \/ (e = -52 /\ (m < 4503599627370496)%positive).
Proof.
  destruct s; intros Hlo Hhi.
  - exact (SFltb_negative _ _ _ _ Hlo).
  - exact (SFltb_positive _ _ _ _ Hhi).
Qed.

(** Truncation toward zero of a number strictly between -1 and 1. *)
Lemma SF_fraction_truncates (x : spec_float) :
  SpecFloat.valid_binary prec emax x = true ->
  SFltb SF_minus_one x = true -> SFltb x SF_one = true ->
  match x with
  | S754_nan => Raise ValueError
  | S754_infinity _ => Raise OverflowError
  | S754_zero _ => Ok 0
  | S754_finite s m e =>
      let mag := if 0 <=? e then Z.shiftl (Zpos m) e
                 else Z.shiftr (Zpos m) (- e) in
      Ok (if s then - mag else mag)
  end = Ok 0.
Proof.
  intros Hv Hlo Hhi. destruct x as [s|s| |s m e].
  - reflexivity.
  - destruct s; discriminate.
  - discriminate.
  - apply valid_digits in Hv.
    pose proof (SF_fraction_mantissa s m e Hlo Hhi) as Hm.
    cbv zeta. rewrite (small_mantissa_truncates m e Hv Hm).
    destruct s; reflexivity.
Qed.

(** A float strictly between -1 and 1 truncates to the integer 0. *)
Lemma int_of_fraction (f : float) :
  (-1 <? f)%float = true -> (f <? 1)%float = true ->
  Py.int_of_float f = Ok 0.
Proof.
  rewrite !FloatAxioms.ltb_spec, Prim2SF_minus_one, Prim2SF_one.
  intros Hlo Hhi. unfold Py.int_of_float.
  exact (SF_fraction_truncates (Prim2SF f) (Prim2SF_valid f) Hlo Hhi).
Qed.

(** X9. The two flags are read with [int], which truncates: a fractional
    [russell_eligible] or [perf_equity_present] strictly between -1 and 1
    (0.5, say) is scored exactly as the flag 0, that is as not eligible and
    as no performance equity. *)
Theorem fractional_flags_read_as_zero (fs : FeatureSet) (f : float) :
  (-1 <? f)%float = true -> (f <? 1)%float = true ->
  (features fs !! "russell_eligible" = Some (VFloat f) ->
   score_index_exclusion fs
   = score_index_exclusion (with_feature "russell_eligible" (VInt 0) fs))
  /\ (features fs !! "perf_equity_present" = Some (VFloat f) ->
      score_equity_incentives fs
      = score_equity_incentives (with_feature "perf_equity_present" (VInt 0) fs)).
Proof.
  intros Hlo Hhi. pose proof (int_of_fraction f Hlo Hhi) as Hint.
  split; intros Hf.
  - apply index_exclusion_reads; unfold with_feature, Py.get; simpl features.
    + rewrite Hf, lookup_insert_eq. simpl. exact Hint.
    + now rewrite lookup_insert_ne.
  - apply equity_incentives_reads; unfold with_feature, Py.get; simpl features.
    + now rewrite lookup_insert_ne.
    + rewrite Hf, lookup_insert_eq. simpl. exact Hint.
Qed.

Lemma fractional_flags_read_as_zero_witness :
  score_index_exclusion
    (with_feature "russell_eligible" (VFloat 0.5) unlisted_microstructure)
  = score_index_exclusion
      (with_feature "russell_eligible" (VInt 0)
         (with_feature "russell_eligible" (VFloat 0.5) unlisted_microstructure)).
Proof.
  apply (fractional_flags_read_as_zero
           (with_feature "russell_eligible" (VFloat 0.5) unlisted_microstructure)
           0.5); vm_compute; reflexivity.
Defined.

(** ** Further properties of the composer *)

Lemma SFleb_positive (m1 m2 : positive) (e1 e2 : Z) :
  e1 < e2 \/ (e1 = e2 /\ (m1 <= m2)%positive) ->
  SFleb (S754_finite false m1 e1) (S754_finite false m2 e2) = true.
Proof.
  unfold SFleb, SFcompare. change (Pos.compare_cont Eq) with Pos.compare.
  intros H. destruct (Z.compare_spec e1 e2) as [He|He|He]; try reflexivity.
  - destruct (Pos.compare_spec m1 m2) as [Hm|Hm|Hm]; try reflexivity.
    exfalso. destruct H as [H | [_ H]]; lia.
  - exfalso. destruct H as [H | [H _]]; lia.
Qed.

Lemma Prim2SF_half : Prim2SF 0.5 = SF_half.
Proof. vm_compute. reflexivity. Qed.

Lemma digits_53_mantissa (m : positive) :
  53 <= Zdigits2 (Zpos m) -> (4503599627370496 <= m)%positive.
Proof.
  intros H. rewrite Zdigits2_log2 in H by lia.
  assert (H52 : 2 ^ 52 <= Zpos m).
  { apply Z.le_trans with (2 ^ Z.log2 (Zpos m)).
    - apply Z.pow_le_mono_r; lia.
    - apply Z.log2_spec. lia. }
  change (2 ^ 52) with (Zpos 4503599627370496) in H52. exact H52.
Qed.

(** At least a half, in the order of binary64 numbers. *)
Lemma mag_ge_half (x : spec_float) :
  SpecFloat.valid_binary prec emax x = true -> mag_ge 0 x ->
  SFleb SF_half x = true.
Proof.
  intros Hv Hx. destruct x as [s|s| |s m e]; try destruct s;
    unfold mag_ge in Hx; try tauto; try reflexivity.
  apply valid_digits in Hv. apply SFleb_positive.
  destruct (Z.lt_trichotomy (-53) e) as [He | [He | He]].
  - now left.
  - right. split; [exact He|]. apply digits_53_mantissa. lia.
  - exfalso. lia.
Qed.

(** X10. Confidence discounts a weight but never to zero: for every
    criterion name, listed or not, and every non-negative confidence, the
    effective weight that [compose] gives a score is at least 0.5. *)
Theorem effective_weight_at_least_half (sc : CriterionScore) :
  (0 <=? confidence sc)%float = true ->
  (0.5 <=? effective_weight sc)%float = true
  /\ Py.truthy (effective_weight sc) = true.
Proof.
  intros Hc. pose proof (effective_weight_mag sc Hc) as Hmag. split.
  - rewrite FloatAxioms.leb_spec, Prim2SF_half.
    apply mag_ge_half; [apply Prim2SF_valid | exact Hmag].
  - now apply mag_ge_truthy.
Qed.

Lemma effective_weight_at_least_half_witness :
  (0.5 <=? effective_weight
             {| criterion := "Synthetic"; score := 3; confidence := 0;
                rationale := ""; evidence_ids := [] |})%float = true.
Proof.
  apply (effective_weight_at_least_half
           {| criterion := "Synthetic"; score := 3; confidence := 0;
              rationale := ""; evidence_ids := [] |}).
  reflexivity.
Defined.

Lemma effective_weight_minus_one (sc : CriterionScore) :
  confidence sc = (-1)%float -> effective_weight sc = 0%float.
Proof.
  intros Hc. unfold effective_weight. rewrite Hc.
  destruct (base_weight_cases (criterion sc)) as [-> | [-> | [-> | ->]]];
    vm_compute; reflexivity.
Qed.

Lemma weight_loop_zero (scs : list CriterionScore) :
  Forall (fun sc => confidence sc = (-1)%float) scs ->
  fold_left (fun a sc => (a + effective_weight sc)%float) scs 0%float = 0%float.
Proof.
  induction 1 as [|sc scs Hc _ IH]; [reflexivity|].
  simpl. rewrite (effective_weight_minus_one sc Hc).
  change (0 + 0)%float with 0%float. exact IH.
Qed.

(** X11. Bounds on confidence are not enforced, and the guard of the
    division covers more than the empty list: when every score has
    confidence -1 all effective weights vanish and [compose] returns the
    composite 0.0 instead of dividing by zero. *)
Theorem compose_all_weights_zero (scs : list CriterionScore) :
  Forall (fun sc => confidence sc = (-1)%float) scs ->
  weight_total scs = 0%float /\ compose scs = Ok (0%float, scs).
Proof.
  intros Hall. pose proof (weight_loop_zero scs Hall) as Hw.
  split; [exact Hw|]. apply compose_zero_weight.
  unfold weight_total. rewrite Hw. reflexivity.
Qed.

Lemma compose_all_weights_zero_witness :
  compose [ {| criterion := "Debt Loading"; score := 5; confidence := -1;
               rationale := ""; evidence_ids := [] |} ]
  = Ok (0%float,
        [ {| criterion := "Debt Loading"; score := 5; confidence := -1;
             rationale := ""; evidence_ids := [] |} ]).
Proof.
  apply (compose_all_weights_zero
           [ {| criterion := "Debt Loading"; score := 5; confidence := -1;
                rationale := ""; evidence_ids := [] |} ]).
  repeat constructor.
Defined.

(** ** Further properties of the fan-out *)

Section GatherInversion.
Context {A : Type}.
Variable children : list (result A).

Let step := Asyncio.complete children.

Lemma results_of_children (fs : list (option (result A))) (vals : list A) :
  length fs = length children ->
  (forall j r, fs !! j = Some (Some r) -> children !! j = Some r) ->
  Asyncio.results_of fs = Some vals -> children = Ok <$> vals.
Proof.
  intros Hlen Hfs Hres. apply mapM_Some in Hres.
  pose proof (Forall2_length _ _ _ Hres) as Hl.
  apply list_eq_same_length with (length children);
    [rewrite length_fmap; congruence | reflexivity |].
  intros j x y Hj Hx Hy. rewrite list_lookup_fmap in Hy.
  destruct (lookup_lt_is_Some_2 fs j) as [f Hf]; [lia|].
  destruct (Forall2_lookup_l _ _ _ _ _ Hres Hf) as (v & Hv & Hfv).
  rewrite Hv in Hy. simpl in Hy. injection Hy as <-.
  destruct f as [[a|e]|]; simpl in Hfv; try discriminate.
  injection Hfv as ->. apply Hfs in Hf. congruence.
Qed.

Lemma gather_inv_start : gather_inv children (Asyncio.start children).
Proof.
  split; [apply length_replicate|]. split.
  - intros j r Hj. simpl in Hj. apply lookup_replicate in Hj as [Hj _].
    discriminate.
  - intros vals Ho. discriminate.
Qed.

Lemma gather_inv_complete st i :
  gather_inv children st -> gather_inv children (step st i).
Proof.
  intros (Hlen & Hfs & Hout).
  assert (Hfs' : forall r, children !! i = Some r ->
            forall j r', <[i := Some r]> (Asyncio.futs st) !! j = Some (Some r') ->
                         children !! j = Some r').
  { intros r Hi j r' Hj. destruct (decide (i = j)) as [->|Hne].
    - rewrite list_lookup_insert_eq in Hj
        by (rewrite Hlen; eapply lookup_lt_Some; eauto).
      congruence.
    - rewrite list_lookup_insert_ne in Hj by exact Hne. now apply Hfs. }
  split; [unfold step; now rewrite complete_length|].
  unfold step, Asyncio.complete.
  destruct (children !! i) as [r|] eqn:Hi; [|split; assumption].
  unfold Asyncio.done_callback.
  destruct (Asyncio.outer st) as [o|] eqn:Ho.
  - split; [apply (Hfs' r eq_refl) | exact Hout].
  - destruct r as [a|e].
    + destruct (_ =? _)%nat; (split; [apply (Hfs' _ eq_refl)|]).
      * intros vals Hv. simpl in Hv.
        destruct (Asyncio.results_of _) as [vs|] eqn:Hres; [|discriminate].
        simpl in Hv. injection Hv as <-.
        apply (results_of_children _ _ (eq_trans (length_insert _ _ _) Hlen)
                 (Hfs' _ eq_refl) Hres).
      * intros vals Hv. discriminate.
    + split; [apply (Hfs' _ eq_refl)|]. intros vals Hv. discriminate.
Qed.

Lemma gather_inv_run order st :
  gather_inv children st -> gather_inv children (fold_left step order st).
Proof.
  revert st. induction order as [|i order IH]; intros st Hst; simpl.
  - exact Hst.
  - apply IH. now apply gather_inv_complete.
Qed.
End GatherInversion.

(** [gather] hands over a list of results only when every child has
    succeeded, and then the list holds the children's values in the order
    of the arguments; this holds for every order of completion. *)
Lemma gather_ok_inv {A : Type} (children : list (result A)) (order : list nat)
    (vals : list A) :
  Asyncio.gather children order = Some (Ok vals) -> children = Ok <$> vals.
Proof.
  destruct children as [|c children].
  - simpl. intros H. now injection H as <-.
  - intros H. rewrite gather_unfold in H by discriminate.
    now apply (gather_inv_run (c :: children) order _
                 (gather_inv_start (c :: children))).
Qed.

(** The first failure, in completion order, resumes [gather] at once:
    the children that have not completed yet are not waited for. *)
Lemma gather_short_circuit {A : Type} (children : list (result A))
    (p q : list nat) (j : nat) (e : exn) :
  (length p < length children)%nat ->
  (forall k, k ∈ p -> exists v, children !! k = Some (Ok v)) ->
  children !! j = Some (Raise e) ->
  Asyncio.gather children (p ++ j :: q) = Some (Raise e).
Proof.
  intros Hlen Hok Hj.
  rewrite gather_unfold by (intros ->; discriminate Hj).
  rewrite fold_left_app. simpl.
  destruct (run_pending children p (Asyncio.start children)) as [Hpend _];
    [reflexivity | exact Hok | simpl; lia |].
  apply run_outer_done. now apply complete_raise.
Qed.

Lemma nodup_bounded_length (order : list nat) (n : nat) :
  NoDup order -> (forall i, i ∈ order -> (i < n)%nat) -> (length order <= n)%nat.
Proof.
  intros Hnd Hb.
  assert (Hsub : order ⊆+ seq 0%nat n).
  { apply NoDup_submseteq; [exact Hnd|].
    intros i Hi. apply list_elem_of_In, in_seq. specialize (Hb i Hi). lia. }
  apply submseteq_length in Hsub. now rewrite length_seq in Hsub.
Qed.

(** While a child is still to complete and no child has failed, [gather]
    does not resume: there is no timeout. *)
Lemma gather_waits {A : Type} (children : list (result A)) (order : list nat)
    (j : nat) :
  NoDup order ->
  (forall i, i ∈ order -> exists v, children !! i = Some (Ok v)) ->
  (j < length children)%nat -> j ∉ order ->
  Asyncio.gather children order = None.
Proof.
  intros Hnd Hok Hj Hnin.
  rewrite gather_unfold by (intros ->; simpl in Hj; lia).
  destruct (run_pending children order (Asyncio.start children)) as [Hpend _];
    [reflexivity | exact Hok | | exact Hpend].
  simpl.
  assert (Hb : (length (j :: order) <= length children)%nat).
  { apply nodup_bounded_length.
    - apply NoDup_cons. split; assumption.
    - intros i Hi. apply elem_of_cons in Hi. destruct Hi as [->|Hi]; [exact Hj|].
      destruct (Hok i Hi) as [v Hv]. eapply lookup_lt_Some; eauto. }
  simpl in Hb. lia.
Qed.

(** ** Further properties of the orchestration *)

Lemma run_with_success (hubs : Hubs) (sched : Schedule) (subject : string)
    (cf : CaseFile) (cap own micro ops : FeatureSet) (s1 s2 s3 : CriterionScore) :
  Permutation (hubs_order sched) (seq 0 4) ->
  Permutation (scorers_order sched) (seq 0 3) ->
  fetch_and_normalize subject = Ok cf ->
  providers hubs cf = [Ok cap; Ok own; Ok micro; Ok ops] ->
  score_debt_loading cap = Ok s1 ->
  score_index_exclusion micro = Ok s2 ->
  score_equity_incentives own = Ok s3 ->
  run_with hubs sched subject
  = Some (Ok {| composite := (weighted_total [s1; s2; s3]
                              / weight_total [s1; s2; s3])%float;
                scores := [s1; s2; s3];
                grid := grid_rows cf [s1; s2; s3] |}).
Proof.
  intros Hhubs Hscorers Hcf Hprov H1 H2 H3.
  destruct (pipeline_composite_is_weighted_mean _ _ _ _ _ _ H1 H2 H3) as [_ Hc].
  unfold run_with. rewrite Hcf. unfold Asyncio.now, Asyncio.await at 1.
  rewrite Hprov.
  change [Ok cap; Ok own; Ok micro; Ok ops]
    with (Ok <$> [cap; own; micro; ops] : list (result FeatureSet)).
  rewrite (gather_all_ok [cap; own; micro; ops] _ Hhubs).
  unfold Asyncio.await at 1. rewrite H1, H2, H3.
  change [Ok s1; Ok s2; Ok s3]
    with (Ok <$> [s1; s2; s3] : list (result CriterionScore)).
  rewrite (gather_all_ok [s1; s2; s3] _ Hscorers).
  unfold Asyncio.await. now rewrite Hc.
Qed.

Lemma run_with_ok_inv (hubs : Hubs) (sched : Schedule) (subject : string)
    (cf : CaseFile) (rep : Report) :
  fetch_and_normalize subject = Ok cf ->
  run_with hubs sched subject = Some (Ok rep) ->
  exists cap own micro ops s1 s2 s3,
    providers hubs cf = [Ok cap; Ok own; Ok micro; Ok ops]
    /\ score_debt_loading cap = Ok s1
    /\ score_index_exclusion micro = Ok s2
    /\ score_equity_incentives own = Ok s3
    /\ rep = {| composite := (weighted_total [s1; s2; s3]
                              / weight_total [s1; s2; s3])%float;
                scores := [s1; s2; s3];
                grid := grid_rows cf [s1; s2; s3] |}.
Proof.
  intros Hcf H. unfold run_with in H. rewrite Hcf in H.
  unfold Asyncio.now, Asyncio.await at 1 in H.
  destruct (Asyncio.gather (providers hubs cf) (hubs_order sched))
    as [[fs|e]|] eqn:Hg; try discriminate.
  apply gather_ok_inv in Hg. unfold providers in Hg.
  destruct fs as [|cap [|own [|micro [|ops [|]]]]]; try discriminate Hg.
  unfold Asyncio.await at 1 in H.
  destruct (Asyncio.gather _ (scorers_order sched)) as [[scs|e]|] eqn:Hs;
    try discriminate.
  apply gather_ok_inv in Hs.
  destruct scs as [|s1 [|s2 [|s3 [|]]]]; try discriminate Hs.
  simpl in Hs. injection Hs as H1 H2 H3.
  destruct (pipeline_composite_is_weighted_mean _ _ _ _ _ _ H1 H2 H3) as [_ Hc].
  unfold Asyncio.await, Asyncio.now in H. rewrite Hc in H. simpl in H.
  injection H as <-.
  exists cap, own, micro, ops, s1, s2, s3. unfold providers. now rewrite Hg.
Qed.

(** X12. A run returns a report only when all four providers and all three
    scorers have succeeded, the provider of the operations domain
    included although no scorer reads it; the report then holds the three
    scores in the order of the call, their weighted mean and the grid of
    these scores. This holds for every order of completion. *)
Theorem run_reports_only_full_success (hubs : Hubs) (sched : Schedule)
    (subject : string) (rep : Report) :
  run_with hubs sched subject = Some (Ok rep) ->
  exists cf cap own micro ops s1 s2 s3,
    fetch_and_normalize subject = Ok cf
    /\ providers hubs cf = [Ok cap; Ok own; Ok micro; Ok ops]
    /\ score_debt_loading cap = Ok s1
    /\ score_index_exclusion micro = Ok s2
    /\ score_equity_incentives own = Ok s3
    /\ scores rep = [s1; s2; s3]
    /\ composite rep
       = (weighted_total (scores rep) / weight_total (scores rep))%float
    /\ grid rep = grid_rows cf (scores rep).
Proof.
  intros H.
  destruct (run_with_ok_inv hubs sched subject _ rep eq_refl H)
    as (cap & own & micro & ops & s1 & s2 & s3 & Hp & H1 & H2 & H3 & ->).
  eexists _, cap, own, micro, ops, s1, s2, s3.
  split; [reflexivity|]. repeat split; assumption.
Qed.

Lemma run_reports_only_full_success_witness :
  exists cf cap own micro ops s1 s2 s3,
    fetch_and_normalize "Example SpinCo" = Ok cf
    /\ providers demo_hubs cf = [Ok cap; Ok own; Ok micro; Ok ops]
    /\ score_debt_loading cap = Ok s1
    /\ score_index_exclusion micro = Ok s2
    /\ score_equity_incentives own = Ok s3
    /\ scores demo_report = [s1; s2; s3]
    /\ composite demo_report
       = (weighted_total (scores demo_report)
          / weight_total (scores demo_report))%float
    /\ grid demo_report = grid_rows cf (scores demo_report).
Proof.
  apply (run_reports_only_full_success demo_hubs demo_schedule "Example SpinCo").
  vm_compute. reflexivity.
Defined.

Lemma scorer_outputs (cap micro own : FeatureSet) (s1 s2 s3 : CriterionScore) :
  score_debt_loading cap = Ok s1 ->
  score_index_exclusion micro = Ok s2 ->
  score_equity_incentives own = Ok s3 ->
  exists a b c,
    (a = 1 \/ a = 3 \/ a = 4 \/ a = 5) /\ (b = 2 \/ b = 4 \/ b = 5)
    /\ (c = 2 \/ c = 3 \/ c = 4 \/ c = 5)
    /\ score s1 = Py.of_int a /\ score s2 = Py.of_int b
    /\ score s3 = Py.of_int c.
Proof.
  intros H1 H2 H3.
  unfold score_debt_loading in H1.
  apply bind_Ok in H1 as (nl & _ & H1). apply bind_Ok in H1 as (fcf & _ & H1).
  injection H1 as <-.
  unfold score_index_exclusion in H2.
  apply bind_Ok in H2 as (russ & _ & H2). apply bind_Ok in H2 as (adv & _ & H2).
  destruct (index_exclusion_table russ adv) as [b r] eqn:Eb. injection H2 as <-.
  unfold score_equity_incentives in H3.
  apply bind_Ok in H3 as (pct & _ & H3). apply bind_Ok in H3 as (perf & _ & H3).
  injection H3 as <-.
  exists (debt_loading_base nl fcf), b, (equity_incentives_table pct perf).
  simpl. repeat split.
  - pose proof (debt_loading_base_range nl fcf).
    pose proof (debt_loading_base_not_2 nl fcf). lia.
  - destruct (index_exclusion_table_cases russ adv) as [E | [E | E]];
      rewrite E in Eb; injection Eb as <- _; lia.
  - pose proof (equity_incentives_table_range pct perf). lia.
Qed.

(** X13. Whatever the providers return, the composite of a run that
    succeeds lies between 1.6756949394155383 (scores 1, 2, 2) and
    5.000000000000001 (scores 5, 5, 5): the rounding of the weighted mean
    can lift it one unit in the last place above the top score 5. *)
Theorem run_composite_range (hubs : Hubs) (sched : Schedule)
    (subject : string) (rep : Report) :
  run_with hubs sched subject = Some (Ok rep) ->
  (0x1.acfa57f2dcc8cp+0 <=? composite rep)%float = true
  /\ (composite rep <=? 0x1.4000000000001p+2)%float = true.
Proof.
  intros H.
  destruct (run_with_ok_inv hubs sched subject _ rep eq_refl H)
    as (cap & own & micro & ops & s1 & s2 & s3 & _ & H1 & H2 & H3 & ->).
  destruct (debt_loading_criterion _ _ H1) as [N1 C1].
  destruct (index_exclusion_criterion _ _ H2) as [N2 C2].
  destruct (equity_incentives_criterion _ _ H3) as [N3 C3].
  destruct (scorer_outputs _ _ _ _ _ _ H1 H2 H3)
    as (a & b & c & Ha & Hb & Hc & S1 & S2 & S3).
  cbn [composite]. unfold weighted_total, weight_total, effective_weight.
  cbn [fold_left]. rewrite N1, N2, N3, C1, C2, C3, S1, S2, S3.
  destruct Ha as [-> | [-> | [-> | ->]]];
    destruct Hb as [-> | [-> | ->]];
    destruct Hc as [-> | [-> | [-> | ->]]];
    split; vm_compute; reflexivity.
Qed.

Lemma run_composite_range_witness :
  (0x1.acfa57f2dcc8cp+0 <=? composite top_report)%float = true
  /\ (composite top_report <=? 0x1.4000000000001p+2)%float = true.
Proof.
  apply (run_composite_range top_hubs demo_schedule "Example SpinCo").
  vm_compute. reflexivity.
Defined.

(** The upper bound is reached: with all three scores at 5 the composite
    is 5.000000000000001. *)
Example run_composite_above_5 :
  run_with top_hubs demo_schedule "Example SpinCo" = Some (Ok top_report)
  /\ map score (scores top_report) = [5; 5; 5]%float
  /\ composite top_report = 0x1.4000000000001p+2%float
  /\ (5 <? composite top_report)%float = true.
Proof. repeat split; vm_compute; reflexivity. Qed.

(** X14. The report does not depend on the order of completion: a report
    returned under one schedule is returned under every schedule in
    which each provider and each scoring task completes once. *)
Theorem run_independent_of_schedule (hubs : Hubs) (sched sched' : Schedule)
    (subject : string) (rep : Report) :
  run_with hubs sched subject = Some (Ok rep) ->
  Permutation (hubs_order sched') (seq 0 4) ->
  Permutation (scorers_order sched') (seq 0 3) ->
  run_with hubs sched' subject = Some (Ok rep).
Proof.
  intros H Hh Hs.
  destruct (run_with_ok_inv hubs sched subject _ rep eq_refl H)
    as (cap & own & micro & ops & s1 & s2 & s3 & Hp & H1 & H2 & H3 & ->).
  now apply (run_with_success hubs sched' subject _ cap own micro ops).
Qed.

Lemma run_independent_of_schedule_witness :
  run_with demo_hubs
    {| hubs_order := [0; 1; 2; 3]%nat; scorers_order := [1; 2; 0]%nat |}
    "Example SpinCo"
  = Some (Ok demo_report).
Proof.
  apply (run_independent_of_schedule demo_hubs demo_schedule).
  - vm_compute. reflexivity.
  - apply (bool_decide_unpack _). vm_compute. exact I.
  - apply (bool_decide_unpack _). vm_compute. exact I.
Defined.

(** X15. The demo providers ignore the case file: for every subject and
    every schedule [run] reports the same three scores, 4, 5 and 4, and
    the same composite, about 4.29; the subject shows only in the first
    column of the grid. *)
Theorem run_same_scores_for_every_subject (sched : Schedule) (subject : string) :
  Permutation (hubs_order sched) (seq 0 4) ->
  Permutation (scorers_order sched) (seq 0 3) ->
  exists rep,
    run sched subject = Some (Ok rep)
    /\ scores rep = demo_scores
    /\ composite rep = 0x1.129c8e52d6f1fp+2%float
    /\ grid rep
       = grid_rows {| company := subject; ticker := "TBD";
                      announcement_date := Some "2025-07-15" |} demo_scores.
Proof.
  intros Hh Hs.
  exists {| composite := 0x1.129c8e52d6f1fp+2; scores := demo_scores;
            grid := grid_rows {| company := subject; ticker := "TBD";
                                 announcement_date := Some "2025-07-15" |}
                      demo_scores |}.
  split; [|repeat split]. unfold run.
  eapply eq_trans.
  - eapply (run_with_success demo_hubs sched subject);
      [exact Hh | exact Hs | reflexivity | reflexivity | | |];
      vm_compute; reflexivity.
  - vm_compute. reflexivity.
Qed.

Lemma run_same_scores_for_every_subject_witness :
  exists rep,
    run demo_schedule "Another SpinCo" = Some (Ok rep)
    /\ scores rep = demo_scores
    /\ composite rep = 0x1.129c8e52d6f1fp+2%float
    /\ grid rep
       = grid_rows {| company := "Another SpinCo"; ticker := "TBD";
                      announcement_date := Some "2025-07-15" |} demo_scores.
Proof.
  apply (run_same_scores_for_every_subject demo_schedule "Another SpinCo").
  - apply (bool_decide_unpack _). vm_compute. exact I.
  - apply (bool_decide_unpack _). vm_compute. exact I.
Defined.

(** The value of a child that succeeds does not change which exception
    resumes [gather]. *)
Lemma gather_last_value {A : Type} (r1 r2 r3 : result A) (a a' : A)
    (order : list nat) :
  Permutation order (seq 0 4) ->
  (exists x1 x2 x3,
     Asyncio.gather [r1; r2; r3; Ok a] order = Some (Ok [x1; x2; x3; a])
     /\ Asyncio.gather [r1; r2; r3; Ok a'] order = Some (Ok [x1; x2; x3; a']))
  \/ (exists e,
        Asyncio.gather [r1; r2; r3; Ok a] order = Some (Raise e)
        /\ Asyncio.gather [r1; r2; r3; Ok a'] order = Some (Raise e)).
Proof.
  intros Hp.
  assert (Hfail : (exists x1 x2 x3, r1 = Ok x1 /\ r2 = Ok x2 /\ r3 = Ok x3)
                  \/ (exists i e, [r1; r2; r3; Ok a] !! i = Some (Raise e))).
  { destruct r1 as [x1|e1]; [|right; now exists 0%nat, e1].
    destruct r2 as [x2|e2]; [|right; now exists 1%nat, e2].
    destruct r3 as [x3|e3]; [|right; now exists 2%nat, e3].
    left. now exists x1, x2, x3. }
  destruct Hfail as [(x1 & x2 & x3 & -> & -> & ->) | Hfail].
  - left. exists x1, x2, x3.
    change [Ok x1; Ok x2; Ok x3; Ok a]
      with (Ok <$> [x1; x2; x3; a] : list (result A)).
    change [Ok x1; Ok x2; Ok x3; Ok a']
      with (Ok <$> [x1; x2; x3; a'] : list (result A)).
    split; now apply gather_all_ok.
  - right.
    destruct (gather_raises [r1; r2; r3; Ok a] order Hp Hfail)
      as (p & j & q & e & Ho & Hj & Hok & Hg).
    exists e. split; [exact Hg|]. rewrite Ho.
    apply gather_short_circuit.
    + apply perm_seq_length in Hp. rewrite Ho, length_app in Hp.
      simpl in Hp. simpl. lia.
    + intros k Hk. destruct (Hok k Hk) as [v Hv].
      destruct k as [|[|[|[|k]]]]; simpl in *; eauto; discriminate.
    + destruct j as [|[|[|[|j]]]]; simpl in *; congruence.
Qed.

(** X16. The features of the operations domain have no effect: two sets of
    providers that agree on the three other domains and whose operations
    providers both succeed give the same outcome, report or exception. *)
Theorem run_ignores_ops_features (hubs hubs' : Hubs) (sched : Schedule)
    (subject : string) (cf : CaseFile) :
  fetch_and_normalize subject = Ok cf ->
  Permutation (hubs_order sched) (seq 0 4) ->
  hub_capital_structure hubs cf = hub_capital_structure hubs' cf ->
  hub_ownership hubs cf = hub_ownership hubs' cf ->
  hub_microstructure hubs cf = hub_microstructure hubs' cf ->
  succeeds (hub_ops hubs cf) -> succeeds (hub_ops hubs' cf) ->
  run_with hubs sched subject = run_with hubs' sched subject.
Proof.
  intros Hcf Hp E1 E2 E3 [ops Hops] [ops' Hops'].
  unfold run_with. rewrite Hcf. unfold Asyncio.now, Asyncio.await at 1 4.
  unfold providers. rewrite <- E1, <- E2, <- E3, Hops, Hops'.
  destruct (gather_last_value (hub_capital_structure hubs cf)
              (hub_ownership hubs cf) (hub_microstructure hubs cf) ops ops'
              (hubs_order sched) Hp)
    as [(cap & own & micro & -> & ->) | (e & -> & ->)]; reflexivity.
Qed.

Lemma run_ignores_ops_features_witness :
  run_with demo_hubs demo_schedule "Example SpinCo"
  = run_with quiet_ops demo_schedule "Example SpinCo".
Proof.
  apply (run_ignores_ops_features demo_hubs quiet_ops demo_schedule
           "Example SpinCo" _ eq_refl).
  - apply (bool_decide_unpack _). vm_compute. exact I.
  - reflexivity.
  - reflexivity.
  - reflexivity.
  - eexists. reflexivity.
  - eexists. reflexivity.
Defined.

(** X17. When a scorer raises, the run ends in that exception and reports
    nothing, the scores of the other scorers included. With several
    failing scorers the exception is that of the one whose task is the
    first to complete. *)
Theorem run_stops_at_scorer_failure (hubs : Hubs) (sched : Schedule)
    (subject : string) (cf : CaseFile) (cap own micro ops : FeatureSet) :
  fetch_and_normalize subject = Ok cf ->
  Permutation (hubs_order sched) (seq 0 4) ->
  Permutation (scorers_order sched) (seq 0 3) ->
  providers hubs cf = [Ok cap; Ok own; Ok micro; Ok ops] ->
  (exists i e, scorer_tasks cap own micro !! i = Some (Raise e)) ->
  exists p j q e,
    scorers_order sched = (p ++ j :: q)%list
    /\ scorer_tasks cap own micro !! j = Some (Raise e)
    /\ (forall k, k ∈ p -> exists cs, scorer_tasks cap own micro !! k = Some (Ok cs))
    /\ run_with hubs sched subject = Some (Raise e)
    /\ reported_scores (run_with hubs sched subject) = [].
Proof.
  intros Hcf Hh Hs Hprov Hfail.
  destruct (gather_raises (scorer_tasks cap own micro) (scorers_order sched) Hs Hfail)
    as (p & j & q & e & Ho & Hj & Hok & Hg).
  assert (Hrun : run_with hubs sched subject = Some (Raise e)).
  { unfold run_with. rewrite Hcf. unfold Asyncio.now, Asyncio.await at 1.
    rewrite Hprov.
    change [Ok cap; Ok own; Ok micro; Ok ops]
      with (Ok <$> [cap; own; micro; ops] : list (result FeatureSet)).
    rewrite (gather_all_ok [cap; own; micro; ops] _ Hh).
    unfold Asyncio.await at 1. unfold scorer_tasks in Hg. now rewrite Hg. }
  exists p, j, q, e. rewrite Hrun. repeat split; assumption.
Qed.

Lemma run_stops_at_scorer_failure_witness :
  exists p j q e,
    scorers_order demo_schedule = (p ++ j :: q)%list
    /\ scorer_tasks text_capital_structure demo_ownership demo_microstructure !! j
       = Some (Raise e)
    /\ (forall k, k ∈ p ->
          exists cs, scorer_tasks text_capital_structure demo_ownership
                       demo_microstructure !! k = Some (Ok cs))
    /\ run_with text_hubs demo_schedule "Example SpinCo" = Some (Raise e)
    /\ reported_scores (run_with text_hubs demo_schedule "Example SpinCo") = [].
Proof.
  apply (run_stops_at_scorer_failure text_hubs demo_schedule "Example SpinCo"
           _ _ _ _ demo_ops eq_refl).
  - apply (bool_decide_unpack _). vm_compute. exact I.
  - apply (bool_decide_unpack _). vm_compute. exact I.
  - reflexivity.
  - exists 0%nat, ValueError. vm_compute. reflexivity.
Defined.

(** X18. [run] sets no timeout on its providers: while one of them is
    still to complete and none has failed, the run does not resume, also
    when the outstanding provider is the one no scorer reads. *)
Theorem run_waits_for_every_provider (hubs : Hubs) (sched : Schedule)
    (subject : string) (cf : CaseFile) (j : nat) :
  fetch_and_normalize subject = Ok cf ->
  NoDup (hubs_order sched) ->
  (forall i, i ∈ hubs_order sched ->
     exists fs, providers hubs cf !! i = Some (Ok fs)) ->
  (j < 4)%nat -> j ∉ hubs_order sched ->
  run_with hubs sched subject = None.
Proof.
  intros Hcf Hnd Hok Hj Hnin. unfold run_with. rewrite Hcf.
  unfold Asyncio.now, Asyncio.await at 1.
  now rewrite (gather_waits (providers hubs cf) (hubs_order sched) j).
Qed.

Lemma run_waits_for_every_provider_witness :
  run_with demo_hubs
    {| hubs_order := [2; 0; 1]%nat; scorers_order := [0; 1; 2]%nat |}
    "Example SpinCo" = None.
Proof.
  apply (run_waits_for_every_provider demo_hubs _ "Example SpinCo" _ 3%nat eq_refl).
  - apply (bool_decide_unpack _). vm_compute. exact I.
  - intros i Hi. simpl in Hi.
    apply elem_of_cons in Hi as [->|Hi]; [eexists; reflexivity|].
    apply elem_of_cons in Hi as [->|Hi]; [eexists; reflexivity|].
    apply list_elem_of_singleton in Hi as ->. eexists; reflexivity.
  - lia.
  - apply (bool_decide_unpack _). vm_compute. exact I.
Defined.

(** X19. A failing provider ends the run at once with its own exception:
    the providers that have not completed are not waited for, and a later
    failure of another provider changes nothing. *)
Theorem run_fails_fast (hubs : Hubs) (sched : Schedule) (subject : string)
    (cf : CaseFile) (p q : list nat) (j : nat) (e : exn) :
  fetch_and_normalize subject = Ok cf ->
  hubs_order sched = (p ++ j :: q)%list ->
  (length p < 4)%nat ->
  (forall k, k ∈ p -> exists fs, providers hubs cf !! k = Some (Ok fs)) ->
  providers hubs cf !! j = Some (Raise e) ->
  run_with hubs sched subject = Some (Raise e).
Proof.
  intros Hcf Ho Hlen Hok Hj. unfold run_with. rewrite Hcf.
  unfold Asyncio.now, Asyncio.await at 1.
  now rewrite Ho, (gather_short_circuit (providers hubs cf) p q j e).
Qed.

Lemma run_fails_fast_witness :
  run_with ops_down {| hubs_order := [1; 3]%nat; scorers_order := [] |}
    "Example SpinCo" = Some (Raise TimeoutError).
Proof.
  apply (run_fails_fast ops_down _ "Example SpinCo" _ [1%nat] [] 3%nat _ eq_refl).
  - reflexivity.
  - simpl. lia.
  - intros k Hk. apply list_elem_of_singleton in Hk as ->. eexists; reflexivity.
  - reflexivity.
Defined.

(** X20. The grid written for a successful run has the header row and one
    row of five cells per score, in the order of the scores; the first
    cell of each row is the subject the run was started with. *)
Theorem run_grid_rows (hubs : Hubs) (sched : Schedule) (subject : string)
    (rep : Report) :
  run_with hubs sched subject = Some (Ok rep) ->
  length (grid rep) = 4%nat
  /\ Forall (fun row => length row = 5%nat) (grid rep)
  /\ grid rep !! 0%nat
     = Some [CStr "Company"; CStr "Criterion"; CStr "Score"; CStr "Confidence";
             CStr "Rationale"]
  /\ (forall i sc, scores rep !! i = Some sc ->
        grid rep !! S i
        = Some [CStr subject; CStr (criterion sc); CNum (score sc);
                CNum (confidence sc); CStr (rationale sc)]).
Proof.
  intros H.
  destruct (run_with_ok_inv hubs sched subject _ rep eq_refl H)
    as (cap & own & micro & ops & s1 & s2 & s3 & _ & _ & _ & _ & ->).
  cbn [grid scores grid_rows map company]. repeat split.
  - repeat constructor.
  - intros i sc Hi.
    destruct i as [|[|[|i]]]; simpl in Hi; try discriminate;
      injection Hi as <-; reflexivity.
Qed.

Lemma run_grid_rows_witness :
  length (grid demo_report) = 4%nat
  /\ Forall (fun row => length row = 5%nat) (grid demo_report)
  /\ grid demo_report !! 0%nat
     = Some [CStr "Company"; CStr "Criterion"; CStr "Score"; CStr "Confidence";
             CStr "Rationale"]
  /\ (forall i sc, scores demo_report !! i = Some sc ->
        grid demo_report !! S i
        = Some [CStr "Example SpinCo"; CStr (criterion sc); CNum (score sc);
                CNum (confidence sc); CStr (rationale sc)]).
Proof.
  apply (run_grid_rows demo_hubs demo_schedule "Example SpinCo").
  vm_compute. reflexivity.
Defined.
